(** * Claw16z trading agent: the monitor and its swap helper

    A shallow embedding of [trading/monitor.js] (class [TradingMonitor]) and
    of [trading/swap.js] (class [JupiterSwap]), and the properties of the
    position lifecycle that the specification states about them.

    Layout:
    - [Js]: the part of the JavaScript runtime the two files rely on
      (numbers, primitive values, comparisons, [parseFloat], strings, [Map]);
    - [Store]: the records of the two classes, the files, the outside world,
      and computations with state and exceptions;
    - [Swap]: [JupiterSwap];
    - [Monitor]: [TradingMonitor];
    - [Props]: the vocabulary of the properties;
    - [Runs]: concrete worlds, candidates and stores;
    - then the lemmas and theorems.

    Numbers.  JavaScript numbers are IEEE doubles.  They are modelled here
    as exact rationals extended with [NaN] and the two infinities, so the
    model has the comparisons, the [NaN] propagation and the division by
    zero of the language, but neither rounding nor overflow nor a negative
    zero.

    Strings are strings of bytes; letter case and white space are those of
    the ASCII range.

    The outside.  Requests and readings of the clock are answered by a
    [World], which may answer each interaction differently.  Writes to the
    two files succeed.  The console is kept as a list of events. *)

From Stdlib Require Import ZArith QArith Qabs Qround Lqa Lia.
From Stdlib Require Import Bool List String Ascii DecimalString.
Import ListNotations.

Local Open Scope Q_scope.

(* ================================================================== *)
(** * The JavaScript runtime *)

Module Js.

(** ** Numbers *)

Inductive number : Type :=
| NaN
| NegInf
| Fin (q : Q)
| PosInf.

Definition zero : number := Fin 0.
Definition one : number := Fin 1.
Definition ofZ (z : Z) : number := Fin (inject_Z z).
Definition ofNat (n : nat) : number := ofZ (Z.of_nat n).

Definition Qltb (a b : Q) : bool := negb (Qle_bool b a).

Definition isNaN (x : number) : bool :=
  match x with NaN => true | _ => false end.

(** The sign of a number that is not [NaN]: [Lt] negative, [Eq] zero,
    [Gt] positive. *)
Definition sign (x : number) : comparison :=
  match x with
  | NaN => Eq
  | NegInf => Lt
  | Fin q => q ?= 0
  | PosInf => Gt
  end.

Definition sign_mul (a b : comparison) : comparison :=
  match a, b with
  | Eq, _ | _, Eq => Eq
  | Lt, Lt | Gt, Gt => Gt
  | _, _ => Lt
  end.

(** An infinity of the given sign; a zero sign stands for the undefined
    forms ([Infinity * 0], [0 / 0]). *)
Definition inf_of (c : comparison) : number :=
  match c with Lt => NegInf | Eq => NaN | Gt => PosInf end.

Definition neg (x : number) : number :=
  match x with
  | NaN => NaN
  | NegInf => PosInf
  | Fin q => Fin (- q)
  | PosInf => NegInf
  end.

Definition add (x y : number) : number :=
  match x, y with
  | NaN, _ | _, NaN => NaN
  | Fin a, Fin b => Fin (a + b)
  | NegInf, PosInf | PosInf, NegInf => NaN
  | NegInf, _ | _, NegInf => NegInf
  | PosInf, _ | _, PosInf => PosInf
  end.

Definition sub (x y : number) : number := add x (neg y).

Definition mul (x y : number) : number :=
  match x, y with
  | NaN, _ | _, NaN => NaN
  | Fin a, Fin b => Fin (a * b)
  | _, _ => inf_of (sign_mul (sign x) (sign y))
  end.

(** [x / y].  The one zero of the model divides like [+0]. *)
Definition div (x y : number) : number :=
  match x, y with
  | NaN, _ | _, NaN => NaN
  | Fin a, Fin b => if Qeq_bool b 0 then inf_of (a ?= 0) else Fin (a / b)
  | Fin _, _ => Fin 0
  | _, Fin b => inf_of (sign_mul (sign x) (if Qltb b 0 then Lt else Gt))
  | _, _ => NaN
  end.

(** [Math.abs], [Math.floor]. *)
Definition abs (x : number) : number :=
  match x with
  | NaN => NaN
  | Fin q => Fin (Qabs q)
  | _ => PosInf
  end.

Definition floor (x : number) : number :=
  match x with
  | Fin q => ofZ (Qfloor q)
  | _ => x
  end.

(** [Math.pow(10, d)] at an integer [d]. *)
Definition pow10 (d : Z) : number :=
  if (0 <=? d)%Z then ofZ (10 ^ d) else Fin (1 # Z.to_pos (10 ^ (- d))).

(** The relational operators: every comparison with [NaN] is false. *)
Definition ltb (x y : number) : bool :=
  match x, y with
  | NaN, _ | _, NaN => false
  | Fin a, Fin b => Qltb a b
  | NegInf, NegInf => false
  | NegInf, _ => true
  | _, NegInf => false
  | PosInf, _ => false
  | _, PosInf => true
  end.

Definition leb (x y : number) : bool :=
  match x, y with
  | NaN, _ | _, NaN => false
  | Fin a, Fin b => Qle_bool a b
  | NegInf, _ => true
  | _, NegInf => false
  | _, PosInf => true
  | PosInf, _ => false
  end.

Definition gtb (x y : number) : bool := ltb y x.
Definition geb (x y : number) : bool := leb y x.

(** Numeric equality: [===] on two numbers. *)
Definition eqb (x y : number) : bool :=
  match x, y with
  | Fin a, Fin b => Qeq_bool a b
  | NegInf, NegInf | PosInf, PosInf => true
  | _, _ => false
  end.

(** ToBoolean on a number, and [x || d] on numbers. *)
Definition truthyNum (x : number) : bool :=
  match x with
  | NaN => false
  | Fin q => negb (Qeq_bool q 0)
  | _ => true
  end.

Definition orElse (x d : number) : number := if truthyNum x then x else d.

(** ** Strings *)

Definition isDigit (c : ascii) : bool :=
  let n := nat_of_ascii c in (48 <=? n)%nat && (n <=? 57)%nat.
Definition isUpper (c : ascii) : bool :=
  let n := nat_of_ascii c in (65 <=? n)%nat && (n <=? 90)%nat.
Definition isLower (c : ascii) : bool :=
  let n := nat_of_ascii c in (97 <=? n)%nat && (n <=? 122)%nat.
Definition isAlnum (c : ascii) : bool := isDigit c || isUpper c || isLower c.

(** The white space of the ASCII range: TAB, LF, VT, FF, CR, SP. *)
Definition isSpace (c : ascii) : bool :=
  let n := nat_of_ascii c in ((9 <=? n)%nat && (n <=? 13)%nat) || (n =? 32)%nat.

Definition lowerChar (c : ascii) : ascii :=
  if isUpper c then ascii_of_nat (nat_of_ascii c + 32) else c.
Definition upperChar (c : ascii) : ascii :=
  if isLower c then ascii_of_nat (nat_of_ascii c - 32) else c.

Fixpoint mapString (f : ascii -> ascii) (s : string) : string :=
  match s with
  | EmptyString => EmptyString
  | String c r => String (f c) (mapString f r)
  end.

Definition toLowerCase : string -> string := mapString lowerChar.
Definition toUpperCase : string -> string := mapString upperChar.

Fixpoint allChars (p : ascii -> bool) (s : string) : bool :=
  match s with
  | EmptyString => true
  | String c r => p c && allChars p r
  end.

(** [s.includes(w)]. *)
Fixpoint includes (s w : string) : bool :=
  if prefix w s then true
  else match s with
       | EmptyString => false
       | String _ r => includes r w
       end.

(** ** Reading numbers out of strings *)

Definition digitVal (c : ascii) : Z := Z.of_nat (nat_of_ascii c - 48).

(** The longest run of decimal digits at the head of [l]: the value
    accumulated on [acc], how many digits were read, and the rest. *)
Fixpoint scanDigits (l : list ascii) (acc : Z) (count : nat)
  : Z * nat * list ascii :=
  match l with
  | c :: r =>
      if isDigit c then scanDigits r (acc * 10 + digitVal c)%Z (S count)
      else (acc, count, l)
  | [] => (acc, count, l)
  end.

(** An exponent part [e[+-]digits], when one is there. *)
Definition scanExponent (l : list ascii) : Z * list ascii :=
  match l with
  | c :: r =>
      if (Ascii.eqb c "e" || Ascii.eqb c "E")%bool then
        let '(sgn, r1) :=
          match r with
          | s :: r' =>
              if Ascii.eqb s "-" then ((-1)%Z, r')
              else if Ascii.eqb s "+" then (1%Z, r')
              else (1%Z, r)
          | [] => (1%Z, r)
          end in
        let '(e, n, r2) := scanDigits r1 0 0 in
        match n with
        | O => (0%Z, l)
        | _ => ((sgn * e)%Z, r2)
        end
      else (0%Z, l)
  | [] => (0%Z, l)
  end.

(** [m * 10^k] as a number. *)
Definition scale10 (m k : Z) : number :=
  if (0 <=? k)%Z then ofZ (m * 10 ^ k)
  else Fin (m # Z.to_pos (10 ^ (- k))).

Definition infinityChars : list ascii := list_ascii_of_string "Infinity".

Fixpoint stripPrefix (p l : list ascii) : option (list ascii) :=
  match p, l with
  | [], _ => Some l
  | a :: p', b :: l' => if Ascii.eqb a b then stripPrefix p' l' else None
  | _ :: _, [] => None
  end.

(** An unsigned decimal literal at the head of [l]
    ([Infinity], [digits[.digits][exp]] or [.digits[exp]]). *)
Definition scanUnsigned (l : list ascii) : option (number * list ascii) :=
  match stripPrefix infinityChars l with
  | Some r => Some (PosInf, r)
  | None =>
      let '(i, ni, r1) := scanDigits l 0 0 in
      let '(m, nf, r2) :=
        match r1 with
        | c :: r =>
            if Ascii.eqb c "." then
              let '(m, nf, r') := scanDigits r i 0 in
              match ni, nf with
              | O, O => (i, O, r1)
              | _, _ => (m, nf, r')
              end
            else (i, O, r1)
        | [] => (i, O, r1)
        end in
      match ni, nf with
      | O, O => None
      | _, _ =>
          let '(e, r3) := scanExponent r2 in
          Some (scale10 m (e - Z.of_nat nf), r3)
      end
  end.

(** A signed decimal literal at the head of [l]. *)
Definition scanDecimal (l : list ascii) : option (number * list ascii) :=
  match l with
  | c :: r =>
      if Ascii.eqb c "-" then
        match scanUnsigned r with
        | Some (v, r') => Some (neg v, r')
        | None => None
        end
      else if Ascii.eqb c "+" then scanUnsigned r
      else scanUnsigned l
  | [] => None
  end.

Fixpoint trimStart (l : list ascii) : list ascii :=
  match l with
  | c :: r => if isSpace c then trimStart r else l
  | [] => []
  end.

Definition trim (l : list ascii) : list ascii :=
  rev (trimStart (rev (trimStart l))).

(** [parseFloat] on a string: leading white space is skipped and the
    longest decimal literal at the head is read; [NaN] without one. *)
Definition parseFloatString (s : string) : number :=
  match scanDecimal (trimStart (list_ascii_of_string s)) with
  | Some (v, _) => v
  | None => NaN
  end.

(** The digits of a radix up to 16. *)
Definition radixDigit (radix : Z) (c : ascii) : option Z :=
  let d :=
    if isDigit c then digitVal c
    else if isLower c then Z.of_nat (nat_of_ascii c - 87)
    else if isUpper c then Z.of_nat (nat_of_ascii c - 55)
    else 99%Z in
  if (d <? radix)%Z then Some d else None.

Fixpoint scanRadix (radix : Z) (l : list ascii) (acc : Z) (count : nat)
  : Z * nat * list ascii :=
  match l with
  | c :: r =>
      match radixDigit radix c with
      | Some d => scanRadix radix r (acc * radix + d)%Z (S count)
      | None => (acc, count, l)
      end
  | [] => (acc, count, l)
  end.

(** A radix prefix [0x], [0o] or [0b] (either case) at the head of [l]. *)
Definition radixPrefix (l : list ascii) : option (Z * list ascii) :=
  match l with
  | z :: c :: r =>
      if Ascii.eqb z "0" then
        if (Ascii.eqb c "x" || Ascii.eqb c "X")%bool then Some (16%Z, r)
        else if (Ascii.eqb c "o" || Ascii.eqb c "O")%bool then Some (8%Z, r)
        else if (Ascii.eqb c "b" || Ascii.eqb c "B")%bool then Some (2%Z, r)
        else None
      else None
  | _ => None
  end.

(** [parseInt] on a string, without a radix argument: white space, a sign,
    then hexadecimal digits after [0x] and decimal digits otherwise;
    [None] stands for [NaN]. *)
Definition parseIntString (s : string) : option Z :=
  let l := trimStart (list_ascii_of_string s) in
  let '(sgn, l1) :=
    match l with
    | c :: r =>
        if Ascii.eqb c "-" then ((-1)%Z, r)
        else if Ascii.eqb c "+" then (1%Z, r)
        else (1%Z, l)
    | [] => (1%Z, l)
    end in
  let '(v, n, _) :=
    match radixPrefix l1 with
    | Some (16%Z, r) => scanRadix 16 r 0 0
    | _ => scanDigits l1 0 0
    end in
  match n with
  | O => None
  | _ => Some (sgn * v)%Z
  end.

(** ToNumber on a string: the whole trimmed string must be one numeric
    literal (decimal with an optional sign, or an unsigned [0x], [0o] or
    [0b] integer); the empty string is [0]. *)
Definition stringToNumber (s : string) : number :=
  match trim (list_ascii_of_string s) with
  | [] => zero
  | l =>
      match radixPrefix l with
      | Some (radix, r) =>
          match scanRadix radix r 0 0 with
          | (_, O, _) => NaN
          | (v, _, []) => ofZ v
          | _ => NaN
          end
      | None =>
          match scanDecimal l with
          | Some (v, []) => v
          | _ => NaN
          end
      end
  end.

(** [s.split(',')] on the characters of [s]; [cur] is the part being read,
    reversed. *)
Fixpoint splitComma (l cur : list ascii) : list (list ascii) :=
  match l with
  | [] => [rev cur]
  | c :: r =>
      if Ascii.eqb c "," then rev cur :: splitComma r []
      else splitComma r (c :: cur)
  end.

(** ** Primitive values *)

Inductive value : Type :=
| VUndefined
| VNull
| VBool (b : bool)
| VNum (n : number)
| VStr (s : string).

Definition toNumber (v : value) : number :=
  match v with
  | VUndefined => NaN
  | VNull => zero
  | VBool b => if b then one else zero
  | VNum n => n
  | VStr s => stringToNumber s
  end.

Definition truthy (v : value) : bool :=
  match v with
  | VUndefined | VNull => false
  | VBool b => b
  | VNum n => truthyNum n
  | VStr s => negb (String.eqb s "")
  end.

(** [parseFloat(v)]: the argument is converted to a string and read.  A
    number prints to a literal that reads back as itself; [undefined],
    [null] and the booleans print to words that are no literal. *)
Definition parseFloat (v : value) : number :=
  match v with
  | VNum n => n
  | VStr s => parseFloatString s
  | _ => NaN
  end.

Definition isNumber (v : value) : bool :=
  match v with VNum _ => true | _ => false end.

(** [v === 'literal']. *)
Definition isString (lit : string) (v : value) : bool :=
  match v with VStr s => String.eqb s lit | _ => false end.

(** SameValueZero, the equality of [Map] keys and [Set] members: [===]
    but for [NaN], which is the same value as itself. *)
Definition sameNumber (x y : number) : bool :=
  match x, y with
  | NaN, NaN => true
  | _, _ => eqb x y
  end.

Definition sameValueZero (a b : value) : bool :=
  match a, b with
  | VUndefined, VUndefined | VNull, VNull => true
  | VBool x, VBool y => Bool.eqb x y
  | VNum x, VNum y => sameNumber x y
  | VStr x, VStr y => String.eqb x y
  | _, _ => false
  end.

(** [JSON.parse(JSON.stringify(v))] on a property value: [NaN] and the
    infinities are written as [null]; a property that is [undefined] is
    left out, and reads back as [undefined]. *)
Definition jsonRoundTrip (v : value) : value :=
  match v with
  | VNum (Fin q) => VNum (Fin q)
  | VNum _ => VNull
  | _ => v
  end.

(** ** Map: an association list in insertion order *)

Definition Map (V : Type) : Type := list (value * V).

Section MapOps.
Context {V : Type}.

Fixpoint get (k : value) (m : Map V) : option V :=
  match m with
  | [] => None
  | (k', v) :: r => if sameValueZero k' k then Some v else get k r
  end.

Definition has (k : value) (m : Map V) : bool :=
  match get k m with Some _ => true | None => false end.

(** [m.set(k, v)]: an existing key keeps its place. *)
Fixpoint set (k : value) (v : V) (m : Map V) : Map V :=
  match m with
  | [] => [(k, v)]
  | (k', v') :: r =>
      if sameValueZero k' k then (k', v) :: r else (k', v') :: set k v r
  end.

Fixpoint delete (k : value) (m : Map V) : Map V :=
  match m with
  | [] => []
  | (k', v') :: r =>
      if sameValueZero k' k then r else (k', v') :: delete k r
  end.

Definition size (m : Map V) : nat := List.length m.
End MapOps.

End Js.

(* ================================================================== *)
(** * What the two classes share: records, files, the outside world *)

Module Store.
Import Js.

(** A pair record of a DexScreener response, reduced to the properties the
    monitor reads.  [pr_priceChange_h24] is the value of
    [pair.priceChange?.h24] (and so [VUndefined] when either level is
    absent), likewise [pr_volume_h24] and [pr_liquidity_usd]; a property
    that is absent reads [VUndefined].  [pr_baseToken] is [None] when the
    record has no [baseToken], on which [pair.baseToken.address] throws. *)
Record BaseToken : Type := {
  bt_address : value;
  bt_symbol : value;
  bt_name : value
}.

Record Pair : Type := {
  pr_chainId : value;
  pr_baseToken : option BaseToken;
  pr_priceUsd : value;
  pr_priceChange_h24 : value;
  pr_volume_h24 : value;
  pr_liquidity_usd : value;
  pr_fdv : value;
  pr_pairAddress : value
}.

(** The token objects [getTrendingTokens] builds. *)
Record Token : Type := {
  address : value;
  symbol : value;
  name : value;
  price : value;
  priceChange24h : value;
  volume24h : value;
  liquidity : value;
  marketCap : value;
  pairAddress : value
}.

(** A position object.  [p_entryTime] holds the time value (milliseconds)
    of the ISO string the source stores, that is what
    [new Date(position.entryTime).getTime()] yields: [toISOString] and the
    [Date] constructor are inverse to each other, and an unreadable date
    has the time value [NaN]. *)
Record Position : Type := {
  p_token : value;
  p_address : value;
  p_entryPrice : value;
  p_entryTime : number;
  p_amount : value;
  p_usdcInvested : value;
  p_signature : value;
  p_stopLoss : value
}.

(** A quote of the Jupiter API.  The decimal counts are integers when they
    are present. *)
Record Quote : Type := {
  q_inAmount : value;
  q_outAmount : value;
  q_inputDecimals : option Z;
  q_outputDecimals : option Z;
  q_priceImpactPct : value
}.

(** The result object of [JupiterSwap.swap]. *)
Record SwapResult : Type := {
  r_signature : string;
  r_inputToken : value;
  r_outputToken : value;
  r_inputAmount : number;
  r_outputAmount : number;
  r_priceImpact : number;
  r_executionTime : Z;
  r_timestamp : Z;
  r_dryRun : bool
}.

(** The exit reason [checkPosition] builds: the source formats the number
    into the text of the reason, the model keeps the number. *)
Inductive ExitReason : Type :=
| NoReason
| StopLossTriggered (stopLoss : number)
| TimeExit (pnl : number)
| ProfitTaking (pnl : number).

(** The trade object [exitPosition] hands to [logTrade]. *)
Record Trade : Type := {
  t_type : string;
  t_token : value;
  t_reason : ExitReason;
  t_entryPrice : value;
  t_entryTime : number;
  t_exitTime : Z;
  t_invested : value;
  t_finalValue : number;
  t_pnl : number;
  t_pnlPercent : number;
  t_signature : string
}.

(** One line of [trades.log].  Both classes append to the file of that
    name in their own directory, which is the same directory. *)
Inductive LogLine : Type :=
| SwapLine (r : SwapResult)
| TradeLine (timestamp : Z) (t : Trade).

Definition lineType (l : LogLine) : string :=
  match l with
  | SwapLine _ => "SWAP"
  | TradeLine _ t => t_type t
  end.

(** [positions.json]: absent; not JSON, or JSON that is no array; an
    array of objects; or an array with a [null] among its members, given
    as the objects [before] the first [null] and the members that follow it
    ([None] is a [null]).  A member that is a number, a string, a boolean
    or an array has none of the properties of a position: it reads as an
    object in which they are all absent. *)
Inductive PositionsFile : Type :=
| NoFile
| Unreadable
| Records (l : list Position)
| RecordsWithNull (before : list Position) (rest : list (option Position)).

(** What is written to the console, as far as the properties below look
    at it. *)
Inductive Event : Type :=
| Scanning
| FoundTokens (n : nat)
| NoOpportunities
| Opportunities (l : list Token)
| MaxPositionsReached
| EnteringPosition (t : Token)
| PositionEntered (p : Position)
| FailedToEnter (t : Token) (msg : string)
| CheckingPositions (n : nat)
| PositionStatus (p : Position) (currentPrice pnl : number)
| ExitingPosition (p : Position) (reason : ExitReason)
| PositionClosed (p : Position) (finalValue pnl : number)
| FailedToExit (p : Position) (msg : string)
| ErrorChecking (p : Position) (msg : string)
| ErrorScanning (msg : string)
| ErrorFetching (msg : string)
| InitiatingSwap (inputToken outputToken : value) (amount : number)
| SwapFailed (msg : string)
| LoadedPositions (n : nat)
| ErrorLoading.

(** The state of the process and of its two files.  [clock] counts the
    interactions with the outside (requests, readings of the time) made so
    far: the outside may answer each one differently. *)
Record State : Type := {
  positions : Map Position;
  positionsFile : PositionsFile;
  tradesLog : list LogLine;
  console : list Event;
  clock : nat
}.

(** The outside world, asked at the [n]-th interaction.  A request
    answers [None] when it throws or carries no usable data (no [pairs]
    array, no quote data); the members of a [pairs] array are objects. *)
Record World : Type := {
  (** [Date.now()], the time value of [new Date()] *)
  dateNow : nat -> Z;
  (** the [pairs] array of [/latest/dex/tokens/trending] *)
  getTrending : nat -> option (list Pair);
  (** the [pairs] array of [/latest/dex/tokens/<address>] *)
  getTokenPairs : nat -> value -> option (list Pair);
  (** the data of [/quote] for input mint, output mint and amount *)
  getQuoteData : nat -> string -> string -> number -> option Quote;
  (** the swap transaction requested, signed, sent and confirmed: its
      signature *)
  sendSwap : nat -> Quote -> option string
}.

(** ** Computations: state and exceptions *)

Inductive Completion (A : Type) : Type :=
| Normal (a : A)
| Throw (msg : string).
Arguments Normal {A} a.
Arguments Throw {A} msg.

Definition M (A : Type) : Type := State -> Completion A * State.

Definition ret {A} (a : A) : M A := fun st => (Normal a, st).
Definition throw {A} (msg : string) : M A := fun st => (Throw msg, st).

Definition bind {A B} (c : M A) (k : A -> M B) : M B :=
  fun st =>
    match c st with
    | (Normal a, st') => k a st'
    | (Throw msg, st') => (Throw msg, st')
    end.

(** [try { c } catch (error) { h error.message }] *)
Definition tryCatch {A} (c : M A) (h : string -> M A) : M A :=
  fun st =>
    match c st with
    | (Normal a, st') => (Normal a, st')
    | (Throw msg, st') => h msg st'
    end.

Definition lift {A} (c : Completion A) : M A := fun st => (c, st).

Declare Scope js_scope.
Delimit Scope js_scope with js.
Notation "x <- c ;; k" := (bind c (fun x => k))
  (at level 61, c at next level, right associativity) : js_scope.
Notation "c ;;; k" := (bind c (fun _ => k))
  (at level 61, right associativity) : js_scope.

Definition log (e : Event) : M unit :=
  fun st =>
    (Normal tt,
     {| positions := positions st; positionsFile := positionsFile st;
        tradesLog := tradesLog st; console := console st ++ [e];
        clock := clock st |}).

(** One interaction with the outside: its number. *)
Definition interact : M nat :=
  fun st =>
    (Normal (clock st),
     {| positions := positions st; positionsFile := positionsFile st;
        tradesLog := tradesLog st; console := console st;
        clock := S (clock st) |}).

Definition now (w : World) : M Z :=
  fun st => bind interact (fun n => ret (dateNow w n)) st.

Definition appendTrade (l : LogLine) : M unit :=
  fun st =>
    (Normal tt,
     {| positions := positions st; positionsFile := positionsFile st;
        tradesLog := tradesLog st ++ [l]; console := console st;
        clock := clock st |}).

Definition setPositions (m : Map Position) : M unit :=
  fun st =>
    (Normal tt,
     {| positions := m; positionsFile := positionsFile st;
        tradesLog := tradesLog st; console := console st;
        clock := clock st |}).

Definition writePositionsFile (f : PositionsFile) : M unit :=
  fun st =>
    (Normal tt,
     {| positions := positions st; positionsFile := f;
        tradesLog := tradesLog st; console := console st;
        clock := clock st |}).

Definition getPositions : M (Map Position) :=
  fun st => (Normal (positions st), st).

End Store.

(* ================================================================== *)
(** * swap.js: class JupiterSwap *)

Module Swap.
Import Js Store.
Local Open Scope js_scope.
Local Open Scope string_scope.

(** The table [tokenMints] of [getMintAddress]. *)
Definition tokenMints (sym : string) : option string :=
  if String.eqb sym "SOL" then Some "So11111111111111111111111111111111111111112"
  else if String.eqb sym "USDC" then Some "EPjFWdd5AufqSSqeM2qN1xzybapC8G4wEGGkZwyTDt1v"
  else if String.eqb sym "USDT" then Some "Es9vMFrzaCERmJfrF4H2FYD4KCoNkY11McCe8BenwNYB"
  else if String.eqb sym "RAY" then Some "4k3Dyjzvzp8eMZWUXbBCjEvwSkkk59S5iCNLY3QrkX6R"
  else if String.eqb sym "SRM" then Some "SRMuApVNdxXokk5GT7XD5cUUgXMBCoAz2LHeuAoKWRt"
  else None.

(** [getMintAddress(token)].  A token that is no string has neither a
    [length] of 44 nor a [toUpperCase], so the call throws. *)
Definition getMintAddress (token : value) : Completion string :=
  match token with
  | VStr s =>
      if (String.length s =? 44)%nat && allChars isAlnum s then Normal s
      else match tokenMints (toUpperCase s) with
           | Some mint => Normal mint
           | None => Throw ("Unknown token symbol: " ++ s)
           end
  | _ => Throw "TypeError"
  end.

(** [getQuote(inputMint, outputMint, amount)] *)
Definition getQuote (w : World) (inputMint outputMint : string)
  (amount : number) : M Quote :=
  n <- interact ;;
  match getQuoteData w n inputMint outputMint amount with
  | Some q => ret q
  | None => throw "No quote received from Jupiter"
  end.

(** [executeSwap(quote, dryRun)] *)
Definition executeSwap (w : World) (quote : Quote) (dryRun : bool)
  : M string :=
  if dryRun then
    t <- now w ;;
    ret ("DRY_RUN_TX_" ++ NilZero.string_of_int (Z.to_int t))
  else
    n <- interact ;;
    match sendSwap w n quote with
    | Some signature => ret signature
    | None => throw "Transaction failed"
    end.

(** [quote.inputDecimals || 6] *)
Definition decimalsOr6 (d : option Z) : Z :=
  match d with
  | Some z => if (z =? 0)%Z then 6%Z else z
  | None => 6%Z
  end.

(** [logTrade(trade)] of the swap helper: one [SWAP] line. *)
Definition logTrade (trade : SwapResult) : M unit :=
  appendTrade (SwapLine trade).

(** [swap(inputToken, outputToken, amount, dryRun)] *)
Definition swap (w : World) (inputToken outputToken : value)
  (amount : number) (dryRun : bool) : M SwapResult :=
  startTime <- now w ;;
  tryCatch
    (log (InitiatingSwap inputToken outputToken amount) ;;;
     inputMint <- lift (getMintAddress inputToken) ;;
     outputMint <- lift (getMintAddress outputToken) ;;
     quote <- getQuote w inputMint outputMint amount ;;
     let inputAmount :=
       div (parseFloat (q_inAmount quote))
           (pow10 (decimalsOr6 (q_inputDecimals quote))) in
     let outputAmount :=
       div (parseFloat (q_outAmount quote))
           (pow10 (decimalsOr6 (q_outputDecimals quote))) in
     let priceImpact :=
       parseFloat (if truthy (q_priceImpactPct quote)
                   then q_priceImpactPct quote else VNum zero) in
     signature <- executeSwap w quote dryRun ;;
     finished <- now w ;;
     timestamp <- now w ;;
     let result :=
       {| r_signature := signature;
          r_inputToken := inputToken;
          r_outputToken := outputToken;
          r_inputAmount := inputAmount;
          r_outputAmount := outputAmount;
          r_priceImpact := priceImpact;
          r_executionTime := (finished - startTime)%Z;
          r_timestamp := timestamp;
          r_dryRun := dryRun |} in
     logTrade result ;;;
     ret result)
    (fun msg => log (SwapFailed msg) ;;; throw msg).

End Swap.

(* ================================================================== *)
(** * monitor.js: class TradingMonitor *)

Module Monitor.
Import Js Store.
Local Open Scope js_scope.
Local Open Scope string_scope.

Record Config : Type := {
  rpcUrl : string;
  positionSize : number;
  maxSlippage : number;
  minLiquidity : number;
  stopLoss : number;
  minVolume24h : number;
  minPriceChange : number;
  minMarketCap : number;
  scanInterval : Z;
  maxPositions : Z;
  dryRun : bool;
  blacklist : list string
}.

(** ** The constructor's configuration *)

(** [process.env]: a variable is a string or is not set. *)
Definition Environment : Type := string -> option string.

(** [parseFloat(process.env.NAME) || dflt] *)
Definition envFloat (env : Environment) (name : string) (dflt : number)
  : number :=
  orElse (match env name with
          | Some s => parseFloatString s
          | None => NaN
          end) dflt.

(** [parseInt(process.env.NAME) || dflt] *)
Definition envInt (env : Environment) (name : string) (dflt : Z) : Z :=
  match env name with
  | Some s =>
      match parseIntString s with
      | Some z => if (z =? 0)%Z then dflt else z
      | None => dflt
      end
  | None => dflt
  end.

(** [(process.env.NAME || dflt)] *)
Definition envString (env : Environment) (name dflt : string) : string :=
  match env name with
  | Some s => if String.eqb s "" then dflt else s
  | None => dflt
  end.

Definition mkConfig (env : Environment) : Config :=
  {| rpcUrl := envString env "RPC_URL" "https://mainnet.base.org";
     positionSize := envFloat env "POSITION_SIZE" (ofZ 10);
     maxSlippage := envFloat env "MAX_SLIPPAGE" (ofZ 1);
     minLiquidity := envFloat env "MIN_LIQUIDITY" (ofZ 100000);
     stopLoss := envFloat env "STOP_LOSS" (ofZ 10);
     minVolume24h := envFloat env "MIN_VOLUME_24H" (ofZ 50000);
     minPriceChange := envFloat env "MIN_PRICE_CHANGE" (ofZ 5);
     minMarketCap := envFloat env "MIN_MARKET_CAP" (ofZ 100000);
     scanInterval := envInt env "SCAN_INTERVAL" 30000;
     maxPositions := envInt env "MAX_POSITIONS" 3;
     dryRun :=
       match env "DRY_RUN" with
       | Some s => String.eqb s "true"
       | None => false
       end;
     blacklist :=
       map (fun part => toLowerCase (string_of_list_ascii (trim part)))
           (splitComma
              (list_ascii_of_string
                 (envString env "BLACKLIST" "MEME,SCAM,INU,DOGE")) []) |}.

(** ** getTrendingTokens *)

Definition isBase (p : Pair) : bool := isString "base" (pr_chainId p).

Definition popularTokens : list string :=
  [ "0x311935Cd80B76769bF2ecC9D8Ab7635b2139cf82";
    "0x833589fCD6eDb6E08f4c7C32D4f71b54bdA02913" ].

(** The loop over the popular tokens: the base pairs of each answer whose
    24h volume exceeds the minimum are appended to [pairs]; an answer that
    fails is passed over. *)
Fixpoint fetchPopular (w : World) (cfg : Config) (tokens : list string)
  (pairs : list Pair) : M (list Pair) :=
  match tokens with
  | [] => ret pairs
  | tokenAddress :: rest =>
      n <- interact ;;
      match getTokenPairs w n (VStr tokenAddress) with
      | Some tokenPairs =>
          let basePairs :=
            filter (fun p => isBase p &&
                             gtb (toNumber (pr_volume_h24 p))
                                 (minVolume24h cfg))
                   tokenPairs in
          fetchPopular w cfg rest (pairs ++ basePairs)
      | None => fetchPopular w cfg rest pairs
      end
  end.

(** The filter on the set [seen] of pair addresses. *)
Fixpoint dedup (seen : list value) (pairs : list Pair) : list Pair :=
  match pairs with
  | [] => []
  | p :: r =>
      if existsb (sameValueZero (pr_pairAddress p)) seen then dedup seen r
      else p :: dedup (pr_pairAddress p :: seen) r
  end.

(** The object built for one pair. *)
Definition toToken (pair : Pair) : Completion Token :=
  match pr_baseToken pair with
  | None => Throw "TypeError"
  | Some b =>
      Normal
        {| address := bt_address b;
           symbol := bt_symbol b;
           name := bt_name b;
           price := VNum (orElse (parseFloat (pr_priceUsd pair)) zero);
           priceChange24h :=
             VNum (orElse (parseFloat (pr_priceChange_h24 pair)) zero);
           volume24h := VNum (orElse (parseFloat (pr_volume_h24 pair)) zero);
           liquidity :=
             VNum (orElse (parseFloat (pr_liquidity_usd pair)) zero);
           marketCap := VNum (orElse (parseFloat (pr_fdv pair)) zero);
           pairAddress := pr_pairAddress pair |}
  end.

(** [pairs.map(f)] for an [f] that may throw. *)
Fixpoint mapC {A B} (f : A -> Completion B) (l : list A)
  : Completion (list B) :=
  match l with
  | [] => Normal []
  | a :: r =>
      match f a with
      | Throw msg => Throw msg
      | Normal b =>
          match mapC f r with
          | Throw msg => Throw msg
          | Normal bs => Normal (b :: bs)
          end
      end
  end.

(** [token.price > 0 && token.volume24h > 0 && token.symbol &&
    token.address] *)
Definition keepToken (token : Token) : bool :=
  gtb (toNumber (price token)) zero &&
  gtb (toNumber (volume24h token)) zero &&
  truthy (symbol token) && truthy (address token).

Definition getTrendingTokens (w : World) (cfg : Config) : M (list Token) :=
  n <- interact ;;
  let trending :=
    match getTrending w n with Some l => l | None => [] end in
  pairs <-
    (if (List.length trending =? 0)%nat || negb (existsb isBase trending) then
       fetched <- fetchPopular w cfg (firstn 2 popularTokens) trending ;;
       ret (dedup [] fetched)
     else ret trending) ;;
  match pairs with
  | [] => ret []
  | _ =>
      match mapC toToken (filter isBase pairs) with
      | Normal tokens => ret (filter keepToken tokens)
      | Throw msg => log (ErrorFetching msg) ;;; ret []
      end
  end.

(** ** isGoodOpportunity *)

Definition isGoodOpportunity (cfg : Config) (ps : Map Position)
  (token : Token) : Completion bool :=
  if ltb (toNumber (volume24h token)) (minVolume24h cfg) then Normal false
  else if ltb (abs (toNumber (priceChange24h token))) (minPriceChange cfg)
  then Normal false
  else if ltb (toNumber (liquidity token)) (minLiquidity cfg)
  then Normal false
  else if ltb (toNumber (marketCap token)) (minMarketCap cfg)
  then Normal false
  else
    match symbol token with
    | VStr s =>
        let symbolLower := toLowerCase s in
        if existsb (fun word => includes symbolLower word) (blacklist cfg)
        then Normal false
        else if has (address token) ps then Normal false
        else if leb (toNumber (priceChange24h token)) zero then Normal false
        else Normal true
    | _ => Throw "TypeError"
    end.

(** ** Persistence *)

(** [{ address, ...position }]: the position's own [address] comes last
    and wins; a position without one leaves the key in place. *)
Definition withAddress (key : value) (position : Position) : Position :=
  {| p_token := p_token position;
     p_address :=
       match p_address position with
       | VUndefined => key
       | a => a
       end;
     p_entryPrice := p_entryPrice position;
     p_entryTime := p_entryTime position;
     p_amount := p_amount position;
     p_usdcInvested := p_usdcInvested position;
     p_signature := p_signature position;
     p_stopLoss := p_stopLoss position |}.

(** A record as it reads back from the file. *)
Definition jsonPosition (position : Position) : Position :=
  {| p_token := jsonRoundTrip (p_token position);
     p_address := jsonRoundTrip (p_address position);
     p_entryPrice := jsonRoundTrip (p_entryPrice position);
     p_entryTime := p_entryTime position;
     p_amount := jsonRoundTrip (p_amount position);
     p_usdcInvested := jsonRoundTrip (p_usdcInvested position);
     p_signature := jsonRoundTrip (p_signature position);
     p_stopLoss := jsonRoundTrip (p_stopLoss position) |}.

(** The array written to the file, as it reads back. *)
Definition snapshot (ps : Map Position) : list Position :=
  map (fun entry => jsonPosition (withAddress (fst entry) (snd entry))) ps.

Definition savePositions : M unit :=
  ps <- getPositions ;;
  writePositionsFile (Records (snapshot ps)).

(** [forEach] sets the members one by one; on a [null] member
    [pos.address] throws, which ends the loop with the members before it
    set and the members after it unread, and the [catch] logs the error. *)
Definition loadPositions : M unit :=
  fun st =>
    match positionsFile st with
    | NoFile => (Normal tt, st)
    | Unreadable => log ErrorLoading st
    | Records data =>
        (ps <- getPositions ;;
         let loaded :=
           fold_left (fun m pos => set (p_address pos) pos m) data ps in
         setPositions loaded ;;;
         log (LoadedPositions (size loaded))) st
    | RecordsWithNull before _ =>
        tryCatch
          (ps <- getPositions ;;
           setPositions
             (fold_left (fun m pos => set (p_address pos) pos m) before ps) ;;;
           throw "TypeError")
          (fun _ => log ErrorLoading) st
    end.

(** [logTrade(trade)] of the monitor. *)
Definition logTrade (w : World) (trade : Trade) : M unit :=
  timestamp <- now w ;;
  appendTrade (TradeLine timestamp trade).

(** ** enterPosition *)

(** The execution of the entry: the fill is made up in a dry run, and
    asked of the swap helper otherwise. *)
Definition entryFill (cfg : Config) (w : World) (token : Token)
  : M SwapResult :=
  let usdcAmount := mul (positionSize cfg) (pow10 6) in
  if dryRun cfg then
    let simulatedAmount :=
      if gtb (toNumber (price token)) zero
      then div (positionSize cfg) (toNumber (price token))
      else positionSize cfg in
    timestamp <- now w ;;
    ret {| r_signature := "DRY_RUN";
           r_inputToken := VUndefined;
           r_outputToken := VUndefined;
           r_inputAmount := NaN;
           r_outputAmount := simulatedAmount;
           r_priceImpact := zero;
           r_executionTime := 0;
           r_timestamp := timestamp;
           r_dryRun := true |}
  else
    Swap.swap w (VStr "USDC") (address token) usdcAmount (dryRun cfg).

(** The position object recorded for a fill. *)
Definition newPosition (cfg : Config) (token : Token) (result : SwapResult)
  (entryTime : Z) : Position :=
  {| p_token := symbol token;
     p_address := address token;
     p_entryPrice := price token;
     p_entryTime := ofZ entryTime;
     p_amount := VNum (r_outputAmount result);
     p_usdcInvested := VNum (positionSize cfg);
     p_signature := VStr (r_signature result);
     p_stopLoss :=
       VNum (mul (toNumber (price token))
                 (sub one (div (stopLoss cfg) (ofZ 100)))) |}.

Definition enterPosition (cfg : Config) (w : World) (token : Token)
  : M unit :=
  tryCatch
    (log (EnteringPosition token) ;;;
     result <- entryFill cfg w token ;;
     entryTime <- now w ;;
     let position := newPosition cfg token result entryTime in
     ps <- getPositions ;;
     setPositions (set (address token) position ps) ;;;
     log (PositionEntered position) ;;;
     savePositions)
    (fun msg => log (FailedToEnter token msg)).

(** ** exitPosition *)

(** The execution of the exit: the whole amount held, in base units of
    six decimals, swapped for USDC. *)
Definition exitFill (cfg : Config) (w : World) (address : value)
  (position : Position) : M SwapResult :=
  let tokenAmount :=
    floor (mul (toNumber (p_amount position)) (pow10 6)) in
  Swap.swap w address (VStr "USDC") tokenAmount (dryRun cfg).

(** The trade object of an exit. *)
Definition exitTrade (position : Position) (reason : ExitReason)
  (result : SwapResult) (exitTime : Z) : Trade :=
  let finalValue := r_outputAmount result in
  let pnl := sub finalValue (toNumber (p_usdcInvested position)) in
  let pnlPercent :=
    mul (div pnl (toNumber (p_usdcInvested position))) (ofZ 100) in
  {| t_type := "EXIT";
     t_token := p_token position;
     t_reason := reason;
     t_entryPrice := p_entryPrice position;
     t_entryTime := p_entryTime position;
     t_exitTime := exitTime;
     t_invested := p_usdcInvested position;
     t_finalValue := finalValue;
     t_pnl := pnl;
     t_pnlPercent := pnlPercent;
     t_signature := r_signature result |}.

Definition exitPosition (cfg : Config) (w : World) (address : value)
  (position : Position) (reason : ExitReason) : M unit :=
  tryCatch
    (log (ExitingPosition position reason) ;;;
     result <- exitFill cfg w address position ;;
     let finalValue := r_outputAmount result in
     let pnl := sub finalValue (toNumber (p_usdcInvested position)) in
     log (PositionClosed position finalValue pnl) ;;;
     ps <- getPositions ;;
     setPositions (delete address ps) ;;;
     savePositions ;;;
     exitTime <- now w ;;
     logTrade w (exitTrade position reason result exitTime))
    (fun msg => log (FailedToExit position msg)).

(** ** getTokenData *)

Record TokenData : Type := {
  td_price : number;
  td_priceChange24h : number;
  td_volume24h : number;
  td_liquidity : number
}.

Definition tokenDataOf (pair : Pair) : TokenData :=
  {| td_price := orElse (parseFloat (pr_priceUsd pair)) zero;
     td_priceChange24h := orElse (parseFloat (pr_priceChange_h24 pair)) zero;
     td_volume24h := orElse (parseFloat (pr_volume_h24 pair)) zero;
     td_liquidity := orElse (parseFloat (pr_liquidity_usd pair)) zero |}.

(** [None] is the [null] of the source. *)
Definition getTokenData (w : World) (address : value)
  : M (option TokenData) :=
  n <- interact ;;
  match getTokenPairs w n address with
  | None => ret None
  | Some pairs =>
      match find isBase pairs with
      | None => ret None
      | Some found => ret (Some (tokenDataOf found))
      end
  end.

(** ** checkPosition *)

(** [((currentPrice - position.entryPrice) / position.entryPrice) * 100] *)
Definition pnlOf (currentPrice : number) (position : Position) : number :=
  mul (div (sub currentPrice (toNumber (p_entryPrice position)))
           (toNumber (p_entryPrice position)))
      (ofZ 100).

(** The pair [(shouldExit, exitReason)] the three checks assign to. *)
Definition Decision : Type := (bool * ExitReason)%type.

Definition noExit : Decision := (false, NoReason).

(** The stop loss check.  The reason formats [position.stopLoss] with
    [toFixed], which only a number has. *)
Definition stopLossCheck (currentPrice : number) (position : Position)
  (d : Decision) : Completion Decision :=
  if leb currentPrice (toNumber (p_stopLoss position)) then
    match p_stopLoss position with
    | VNum sl => Normal (true, StopLossTriggered sl)
    | _ => Throw "TypeError"
    end
  else Normal d.

Definition maxAge : number := ofZ (4 * 60 * 60 * 1000).

(** The time-based exit. *)
Definition timeCheck (t : Z) (pnl : number) (position : Position)
  (d : Decision) : Decision :=
  let positionAge := sub (ofZ t) (p_entryTime position) in
  if gtb positionAge maxAge && ltb pnl (ofZ 20) then (true, TimeExit pnl)
  else d.

(** The profit taking. *)
Definition profitCheck (pnl : number) (d : Decision) : Decision :=
  if gtb pnl (ofZ 50) then (true, ProfitTaking pnl) else d.

(** The three checks in their order, at current price [currentPrice] and
    time [t]. *)
Definition exitDecision (currentPrice : number) (t : Z)
  (position : Position) : Completion Decision :=
  match stopLossCheck currentPrice position noExit with
  | Throw msg => Throw msg
  | Normal d =>
      let pnl := pnlOf currentPrice position in
      Normal (profitCheck pnl (timeCheck t pnl position d))
  end.

Definition checkPosition (cfg : Config) (w : World) (address : value)
  (position : Position) : M unit :=
  currentData <- getTokenData w address ;;
  match currentData with
  | None => ret tt
  | Some data =>
      let currentPrice := td_price data in
      let pnl := pnlOf currentPrice position in
      log (PositionStatus position currentPrice pnl) ;;;
      d1 <- lift (stopLossCheck currentPrice position noExit) ;;
      t <- now w ;;
      let d2 := timeCheck t pnl position d1 in
      let d3 := profitCheck pnl d2 in
      if fst d3 then exitPosition cfg w address position (snd d3)
      else ret tt
  end.

(** The loop of [checkPositions] over the entries of the store.  A check
    removes no entry but its own, so the entries still to visit are those
    of the store when the loop began. *)
Fixpoint checkEach (cfg : Config) (w : World)
  (entries : list (value * Position)) : M unit :=
  match entries with
  | [] => ret tt
  | (address, position) :: rest =>
      tryCatch (checkPosition cfg w address position)
               (fun msg => log (ErrorChecking position msg)) ;;;
      checkEach cfg w rest
  end.

Definition checkPositions (cfg : Config) (w : World) : M unit :=
  ps <- getPositions ;;
  match ps with
  | [] => ret tt
  | _ => log (CheckingPositions (size ps)) ;;; checkEach cfg w ps
  end.

(** ** scanMarkets *)

(** [tokens.filter(f)] for an [f] that may throw. *)
Fixpoint filterC {A} (f : A -> Completion bool) (l : list A)
  : Completion (list A) :=
  match l with
  | [] => Normal []
  | a :: r =>
      match f a with
      | Throw msg => Throw msg
      | Normal b =>
          match filterC f r with
          | Throw msg => Throw msg
          | Normal r' => Normal (if b then a :: r' else r')
          end
      end
  end.

(** The loop over the top opportunities. *)
Fixpoint openPositions (cfg : Config) (w : World) (tokens : list Token)
  : M unit :=
  match tokens with
  | [] => ret tt
  | token :: rest =>
      ps <- getPositions ;;
      if (maxPositions cfg <=? Z.of_nat (size ps))%Z
      then log MaxPositionsReached
      else enterPosition cfg w token ;;; openPositions cfg w rest
  end.

Definition scanMarkets (cfg : Config) (w : World) : M unit :=
  tryCatch
    (_ <- now w ;;
     log Scanning ;;;
     tokens <- getTrendingTokens w cfg ;;
     log (FoundTokens (List.length tokens)) ;;;
     ps <- getPositions ;;
     opportunities <- lift (filterC (isGoodOpportunity cfg ps) tokens) ;;
     match opportunities with
     | [] => log NoOpportunities
     | _ =>
         (* the listing formats priceChange24h with toFixed *)
         (if forallb (fun t => isNumber (priceChange24h t)) opportunities
          then log (Opportunities opportunities)
          else throw "TypeError") ;;;
         let topOpportunities := firstn 3 opportunities in
         openPositions cfg w topOpportunities
     end)
    (fun msg => log (ErrorScanning msg)).

(** One pass of the body of [scanLoop]. *)
Definition scanOnce (cfg : Config) (w : World) : M unit :=
  tryCatch (scanMarkets cfg w ;;; checkPositions cfg w)
           (fun _ => ret tt).

End Monitor.

(* ================================================================== *)
(** * The vocabulary of the properties *)

Module Props.
Import Js Store Monitor.

(** The conditions of the three checks. *)
Definition stopLossRule (currentPrice : number) (position : Position)
  : bool :=
  leb currentPrice (toNumber (p_stopLoss position)).

Definition timeRule (currentPrice : number) (t : Z) (position : Position)
  : bool :=
  gtb (sub (ofZ t) (p_entryTime position)) maxAge &&
  ltb (pnlOf currentPrice position) (ofZ 20).

Definition profitRule (currentPrice : number) (position : Position) : bool :=
  gtb (pnlOf currentPrice position) (ofZ 50).

(** The reason of the last of the three rules that matches: the profit
    taking, else the time exit, else the stop loss; none when no rule
    matches. *)
Definition lastMatch (currentPrice : number) (t : Z) (position : Position)
  : option ExitReason :=
  if profitRule currentPrice position
  then Some (ProfitTaking (pnlOf currentPrice position))
  else if timeRule currentPrice t position
  then Some (TimeExit (pnlOf currentPrice position))
  else if stopLossRule currentPrice position
  then Some (StopLossTriggered (toNumber (p_stopLoss position)))
  else None.

(** Which rule a reason names. *)
Inductive Rule : Type := StopLoss | Time | Profit.

Definition ruleOf (r : ExitReason) : option Rule :=
  match r with
  | NoReason => None
  | StopLossTriggered _ => Some StopLoss
  | TimeExit _ => Some Time
  | ProfitTaking _ => Some Profit
  end.

(** The rules named by the reasons of the [EXIT] lines of a trade log. *)
Fixpoint recordedRules (l : list LogLine) : list (option Rule) :=
  match l with
  | [] => []
  | SwapLine _ :: r => recordedRules r
  | TradeLine _ t :: r => ruleOf (t_reason t) :: recordedRules r
  end.

(** The seven conditions of the opportunity filter, as the specification
    lists them, on a token whose symbol is the string [s]. *)
Definition blacklisted (cfg : Config) (s : string) : bool :=
  existsb (fun word => includes (toLowerCase s) word) (blacklist cfg).

Definition sevenConditions (cfg : Config) (ps : Map Position) (token : Token)
  (s : string) : Prop :=
  geb (toNumber (volume24h token)) (minVolume24h cfg) = true /\
  geb (abs (toNumber (priceChange24h token))) (minPriceChange cfg) = true /\
  geb (toNumber (liquidity token)) (minLiquidity cfg) = true /\
  geb (toNumber (marketCap token)) (minMarketCap cfg) = true /\
  blacklisted cfg s = false /\
  has (address token) ps = false /\
  gtb (toNumber (priceChange24h token)) zero = true.

(** The four numeric fields of a token read as numbers other than [NaN],
    as they do on every token [getTrendingTokens] builds. *)
Definition numericFields (token : Token) : Prop :=
  isNaN (toNumber (volume24h token)) = false /\
  isNaN (toNumber (priceChange24h token)) = false /\
  isNaN (toNumber (liquidity token)) = false /\
  isNaN (toNumber (marketCap token)) = false.

(** The four thresholds are numbers other than [NaN], as they are in
    every configuration the constructor builds. *)
Definition thresholdsSet (cfg : Config) : Prop :=
  isNaN (minVolume24h cfg) = false /\
  isNaN (minPriceChange cfg) = false /\
  isNaN (minLiquidity cfg) = false /\
  isNaN (minMarketCap cfg) = false.

(** The tokens for which an open was begun, in the order of the console
    lines that announce them. *)
Definition attemptOf (e : Event) : list Token :=
  match e with
  | EnteringPosition t => [t]
  | _ => []
  end.

Definition attempts (l : list Event) : list Token := flat_map attemptOf l.

(** The token passes the filter. *)
Definition qualifies (cfg : Config) (ps : Map Position) (token : Token)
  : bool :=
  match isGoodOpportunity cfg ps token with
  | Normal b => b
  | Throw _ => false
  end.

(** The tokens the feed hands to a scan begun in state [st]. *)
Definition scanFeed (cfg : Config) (w : World) (st : State) : list Token :=
  match fst (getTrendingTokens w cfg
               (snd (bind (now w) (fun _ => log Scanning) st))) with
  | Normal tokens => tokens
  | Throw _ => []
  end.

(** A step that leaves the store, its file and the trade log alone and
    begins no open. *)
Definition quiet (st st' : State) : Prop :=
  positions st' = positions st /\
  positionsFile st' = positionsFile st /\
  tradesLog st' = tradesLog st /\
  attempts (console st') = attempts (console st).

(** The closes that were begun, in the order of the console lines that
    announce them. *)
Definition closeAttemptOf (e : Event) : list (Position * ExitReason) :=
  match e with
  | ExitingPosition p reason => [(p, reason)]
  | _ => []
  end.

Definition closeAttempts (l : list Event) : list (Position * ExitReason) :=
  flat_map closeAttemptOf l.

(** The console lines of the swap helper. *)
Definition swapEvent (e : Event) : bool :=
  match e with
  | InitiatingSwap _ _ _ | SwapFailed _ => true
  | _ => false
  end.

(** [entryPrice * (1 - stopLoss / 100)], the stop of a position entered at
    [entryPrice]. *)
Definition stopLossPrice (cfg : Config) (entryPrice : value) : number :=
  mul (toNumber entryPrice) (sub one (div (stopLoss cfg) (ofZ 100))).

(** No two keys of the list are the same value, as in a [Map] or a
    [Set]. *)
Fixpoint distinctKeys (keys : list value) : Prop :=
  match keys with
  | [] => True
  | k :: r => existsb (sameValueZero k) r = false /\ distinctKeys r
  end.

(** The store of a monitor: a map, each position under its own address. *)
Definition storeInvariant (ps : Map Position) : Prop :=
  distinctKeys (map fst ps) /\
  forall k p, In (k, p) ps -> p_address p = k.

(** A position whose values all have a JSON form (no [NaN], no
    infinity). *)
Definition jsonSafe (ps : Map Position) : Prop :=
  forall k p, In (k, p) ps -> jsonPosition p = p.

(** The process started again on the files a state leaves: an empty
    store, the files as they are. *)
Definition restart (st : State) : State :=
  {| positions := [];
     positionsFile := positionsFile st;
     tradesLog := tradesLog st;
     console := [];
     clock := 0 |}.

(** The store read back from the snapshot written in [st]. *)
Definition reloaded (st : State) : Map Position :=
  positions (snd (loadPositions (restart (snd (savePositions st))))).

(** The tokens [getTrendingTokens] returns in state [st]. *)
Definition feed (w : World) (cfg : Config) (st : State) : list Token :=
  match fst (getTrendingTokens w cfg st) with
  | Normal tokens => tokens
  | Throw _ => []
  end.

(** The pairs of the trending answer. *)
Definition trendingPairs (w : World) (st : State) : list Pair :=
  match getTrending w (clock st) with
  | Some l => l
  | None => []
  end.

(** The fallback is taken: the trending answer is empty or has no base
    pair. *)
Definition fallbackTaken (w : World) (st : State) : bool :=
  (List.length (trendingPairs w st) =? 0)%nat ||
  negb (existsb isBase (trendingPairs w st)).

(** The trending pairs followed by what the fallback fetched. *)
Definition mergedPairs (w : World) (cfg : Config) (st : State) : list Pair :=
  match fst (fetchPopular w cfg (firstn 2 popularTokens) (trendingPairs w st)
               (snd (interact st))) with
  | Normal l => l
  | Throw _ => []
  end.

(** The pairs the tokens are built from. *)
Definition selectedPairs (w : World) (cfg : Config) (st : State)
  : list Pair :=
  if fallbackTaken w st then dedup [] (mergedPairs w cfg st)
  else trendingPairs w st.

End Props.

(* ================================================================== *)
(** * Worked runs *)

Module Runs.
Import Js Store Monitor Props.
Local Open Scope string_scope.

Definition defaults : Config := mkConfig (fun _ => None).

Definition paper : Config :=
  mkConfig (fun n => if String.eqb n "DRY_RUN" then Some "true" else None).

Definition emptyState : State :=
  {| positions := []; positionsFile := NoFile; tradesLog := [];
     console := []; clock := 0 |}.

(** A world that answers nothing and whose clock reads [t0 + n]. *)
Definition silent (t0 : Z) : World :=
  {| dateNow := fun n => (t0 + Z.of_nat n)%Z;
     getTrending := fun _ => None;
     getTokenPairs := fun _ _ => None;
     getQuoteData := fun _ _ _ _ => None;
     sendSwap := fun _ _ => None |}.

(** The candidate of the specification's scenario. *)
Definition foo : Token :=
  {| address := VStr "0xA"; symbol := VStr "FOO"; name := VStr "Foo";
     price := VNum (Fin 1); priceChange24h := VNum (Fin 12);
     volume24h := VNum (Fin 80000); liquidity := VNum (Fin 150000);
     marketCap := VNum (Fin 200000); pairAddress := VStr "0xP" |}.

(** A position bought at 1 with its stop at 0.9, at time 0. *)
Definition heldAddress : value :=
  VStr "Es9vMFrzaCERmJfrF4H2FYD4KCoNkY11McCe8BenwNYB".

Definition held : Position :=
  {| p_token := VStr "FOO"; p_address := heldAddress;
     p_entryPrice := VNum (Fin 1); p_entryTime := ofZ 0;
     p_amount := VNum (Fin 10); p_usdcInvested := VNum (Fin 10);
     p_signature := VStr "DRY_RUN"; p_stopLoss := VNum (Fin (9 # 10)) |}.

Definition holding : State :=
  {| positions := [(heldAddress, held)]; positionsFile := NoFile;
     tradesLog := []; console := []; clock := 0 |}.

Definition basePair (priceUsd : value) : Pair :=
  {| pr_chainId := VStr "base";
     pr_baseToken :=
       Some {| bt_address := heldAddress; bt_symbol := VStr "FOO";
               bt_name := VStr "Foo" |};
     pr_priceUsd := priceUsd;
     pr_priceChange_h24 := VNum (Fin 12);
     pr_volume_h24 := VNum (Fin 80000);
     pr_liquidity_usd := VNum (Fin 150000);
     pr_fdv := VNum (Fin 200000);
     pr_pairAddress := VStr "0xP" |}.

(** A world in which the time is always [t], the token trades at
    [priceUsd], and every quote and every swap goes through. *)
Definition market (t : Z) (priceUsd : value) : World :=
  {| dateNow := fun _ => t;
     getTrending := fun _ => None;
     getTokenPairs := fun _ _ => Some [basePair priceUsd];
     getQuoteData := fun _ _ _ amount =>
       Some {| q_inAmount := VNum amount; q_outAmount := VStr "8500000";
               q_inputDecimals := None; q_outputDecimals := None;
               q_priceImpactPct := VUndefined |};
     sendSwap := fun _ _ => Some "5igNature" |}.

Definition fiveHours : Z := 5 * 60 * 60 * 1000.

(** Objects that are no well-formed candidates: one without a symbol,
    one without a volume. *)
Definition noSymbol : Token :=
  {| address := VStr "0xA"; symbol := VUndefined; name := VStr "Foo";
     price := VNum (Fin 1); priceChange24h := VNum (Fin 12);
     volume24h := VNum (Fin 80000); liquidity := VNum (Fin 150000);
     marketCap := VNum (Fin 200000); pairAddress := VStr "0xP" |}.

Definition noVolume : Token :=
  {| address := VStr "0xA"; symbol := VStr "FOO"; name := VStr "Foo";
     price := VNum (Fin 1); priceChange24h := VNum (Fin 12);
     volume24h := VUndefined; liquidity := VNum (Fin 150000);
     marketCap := VNum (Fin 200000); pairAddress := VStr "0xP" |}.

(** A candidate that sits on every threshold of the default
    configuration. *)
Definition onThresholds : Token :=
  {| address := VStr "0xA"; symbol := VStr "FOO"; name := VStr "Foo";
     price := VNum (Fin 1); priceChange24h := VNum (Fin 5);
     volume24h := VNum (Fin 50000); liquidity := VNum (Fin 100000);
     marketCap := VNum (Fin 100000); pairAddress := VStr "0xP" |}.

(** A pair record of the feed without a liquidity. *)
Definition noLiquidityPair : Pair :=
  {| pr_chainId := VStr "base";
     pr_baseToken :=
       Some {| bt_address := VStr "0xA"; bt_symbol := VStr "FOO";
               bt_name := VStr "Foo" |};
     pr_priceUsd := VStr "1.00";
     pr_priceChange_h24 := VNum (Fin 12);
     pr_volume_h24 := VNum (Fin 80000);
     pr_liquidity_usd := VUndefined;
     pr_fdv := VNum (Fin 200000);
     pr_pairAddress := VStr "0xP" |}.

(** A store with three positions, the default limit. *)
Definition heldAt (a : string) : Position :=
  {| p_token := VStr "BAR"; p_address := VStr a;
     p_entryPrice := VNum (Fin 1); p_entryTime := ofZ 0;
     p_amount := VNum (Fin 10); p_usdcInvested := VNum (Fin 10);
     p_signature := VStr "DRY_RUN"; p_stopLoss := VNum (Fin (9 # 10)) |}.

Definition crowded : State :=
  {| positions :=
       [(VStr "0x1", heldAt "0x1"); (VStr "0x2", heldAt "0x2");
        (VStr "0x3", heldAt "0x3")];
     positionsFile := NoFile; tradesLog := []; console := []; clock := 0 |}.

(** The position an entry at price 1 records in a dry run. *)
Definition entered : Position :=
  newPosition paper
    {| address := heldAddress; symbol := VStr "FOO"; name := VStr "Foo";
       price := VNum (Fin 1); priceChange24h := VNum (Fin 12);
       volume24h := VNum (Fin 80000); liquidity := VNum (Fin 150000);
       marketCap := VNum (Fin 200000); pairAddress := VStr "0xP" |}
    {| r_signature := "DRY_RUN"; r_inputToken := VUndefined;
       r_outputToken := VUndefined; r_inputAmount := NaN;
       r_outputAmount := Fin 10; r_priceImpact := zero;
       r_executionTime := 0; r_timestamp := 0; r_dryRun := true |}
    0.

(** A world like [market] whose quotes lack their [outAmount]. *)
Definition blankQuotes : World :=
  {| dateNow := fun _ => 0%Z;
     getTrending := fun _ => None;
     getTokenPairs := fun _ _ => None;
     getQuoteData := fun _ _ _ amount =>
       Some {| q_inAmount := VNum amount; q_outAmount := VUndefined;
               q_inputDecimals := None; q_outputDecimals := None;
               q_priceImpactPct := VUndefined |};
     sendSwap := fun _ _ => Some "5igNature" |}.

(** The candidate of the scenario at the address of [held]. *)
Definition fooAtHeld : Token :=
  {| address := heldAddress; symbol := VStr "FOO"; name := VStr "Foo";
     price := VNum (Fin 1); priceChange24h := VNum (Fin 12);
     volume24h := VNum (Fin 80000); liquidity := VNum (Fin 150000);
     marketCap := VNum (Fin 200000); pairAddress := VStr "0xP" |}.

(** A world whose trending answer lists the same base pair twice. *)
Definition doubled : World :=
  {| dateNow := fun _ => 0%Z;
     getTrending :=
       fun _ => Some [basePair (VStr "1.00"); basePair (VStr "1.00")];
     getTokenPairs := fun _ _ => None;
     getQuoteData := fun _ _ _ _ => None;
     sendSwap := fun _ _ => None |}.

(** The token built from [basePair (VStr "1.00")]. *)
Definition listed : Token :=
  {| address := heldAddress; symbol := VStr "FOO"; name := VStr "Foo";
     price := VNum (Fin (100 # 100)); priceChange24h := VNum (Fin 12);
     volume24h := VNum (Fin 80000); liquidity := VNum (Fin 150000);
     marketCap := VNum (Fin 200000); pairAddress := VStr "0xP" |}.

(** A world whose trending answer fails and whose two fallback answers
    both list the same base pair. *)
Definition fallback : World :=
  {| dateNow := fun _ => 0%Z;
     getTrending := fun _ => None;
     getTokenPairs := fun _ _ => Some [basePair (VStr "1.00")];
     getQuoteData := fun _ _ _ _ => None;
     sendSwap := fun _ _ => None |}.

End Runs.

(* ================================================================== *)
(** * scanLoop *)

Module Loop.
Import Js Store Monitor.
Local Open Scope js_scope.

(** The body of one pass of [scanLoop], up to the sleep. *)
Definition pass (cfg : Config) (w : World) : M unit :=
  scanMarkets cfg w ;;; checkPositions cfg w.

(** [scanLoop] for the [rounds] passes it makes before the process is
    stopped: the state it reaches, and the sleeps it took in order
    (milliseconds).  A pass that completes sleeps [scanInterval]; a pass
    that throws sleeps five seconds. *)
Fixpoint scanLoop (cfg : Config) (w : World) (rounds : nat) (st : State)
  : State * list Z :=
  match rounds with
  | O => (st, [])
  | S n =>
      match pass cfg w st with
      | (Normal _, st1) =>
          let '(st2, sleeps) := scanLoop cfg w n st1 in
          (st2, scanInterval cfg :: sleeps)
      | (Throw _, st1) =>
          let '(st2, sleeps) := scanLoop cfg w n st1 in
          (st2, 5000%Z :: sleeps)
      end
  end.

End Loop.

(* ================================================================== *)
(** * The vocabulary of the upkeep properties *)

Module Upkeep.
Import Js Store Monitor Props.

(** The file holds the snapshot of the store. *)
Definition synced (st : State) : Prop :=
  positionsFile st = Records (snapshot (positions st)).

(** From [st] to [st'] the store and its file were left alone, or the
    file was written last with the store as it now is. *)
Definition mirrored (st st' : State) : Prop :=
  (positions st' = positions st /\ positionsFile st' = positionsFile st) \/
  synced st'.

(** The two types of line the classes write to the trade log. *)
Definition knownLine (l : LogLine) : bool :=
  String.eqb (lineType l) "SWAP"%string ||
  String.eqb (lineType l) "EXIT"%string.

(** From [st] to [st'] the trade log only grew, by lines of the two
    types. *)
Definition appended (st st' : State) : Prop :=
  exists extra,
    tradesLog st' = tradesLog st ++ extra /\ forallb knownLine extra = true.

(** From [st] to [st'] the store, its file and the trade log were left
    alone. *)
Definition framed (st st' : State) : Prop :=
  positions st' = positions st /\
  positionsFile st' = positionsFile st /\
  tradesLog st' = tradesLog st.

(** The store of [st'] has distinct keys if that of [st] has. *)
Definition keepsDistinct (st st' : State) : Prop :=
  distinctKeys (map fst (positions st)) ->
  distinctKeys (map fst (positions st')).

(** The store of [st'] is no larger than that of [st]. *)
Definition shrinks (st st' : State) : Prop :=
  (size (positions st') <= size (positions st))%nat.

(** The store of [st'] is no larger than that of [st], or within the
    limit of the configuration. *)
Definition bounded (cfg : Config) (st st' : State) : Prop :=
  (size (positions st') <= size (positions st))%nat \/
  (Z.of_nat (size (positions st')) <= maxPositions cfg)%Z.

(** The helper finds a mint for the token. *)
Definition resolves (token : value) : bool :=
  match Swap.getMintAddress token with
  | Normal _ => true
  | Throw _ => false
  end.

(** Two worlds that tell the same time, and that answer quotes alike. *)
Definition sameClock (w w' : World) : Prop :=
  forall n, dateNow w n = dateNow w' n.

Definition sameQuotes (w w' : World) : Prop :=
  forall n i o a, getQuoteData w n i o a = getQuoteData w' n i o a.

(** The pair has the chain of the monitor and was fetched above the
    minimum volume, as the fallback requires. *)
Definition fetchable (cfg : Config) (p : Pair) : bool :=
  isBase p && gtb (toNumber (pr_volume_h24 p)) (minVolume24h cfg).


End Upkeep.

(* ================================================================== *)
(** * More worked runs *)

Module Cases.
Import Js Store Monitor Props Upkeep.
Local Open Scope string_scope.

(** A position read back from a snapshot that held its stop as [null]. *)
Definition stopless : Position :=
  {| p_token := VStr "FOO"; p_address := Runs.heldAddress;
     p_entryPrice := VNum (Fin 1); p_entryTime := ofZ 0;
     p_amount := VNum (Fin 10); p_usdcInvested := VNum (Fin 10);
     p_signature := VStr "DRY_RUN"; p_stopLoss := VNull |}.

Definition holdingStopless : State :=
  {| positions := [(Runs.heldAddress, stopless)]; positionsFile := NoFile;
     tradesLog := []; console := []; clock := 0 |}.

(** A position at a Base address. *)
Definition baseAddress : value :=
  VStr "0x311935Cd80B76769bF2ecC9D8Ab7635b2139cf82".

Definition heldOnBase : Position :=
  {| p_token := VStr "FOO"; p_address := baseAddress;
     p_entryPrice := VNum (Fin 1); p_entryTime := ofZ 0;
     p_amount := VNum (Fin 10); p_usdcInvested := VNum (Fin 10);
     p_signature := VStr "DRY_RUN"; p_stopLoss := VNum (Fin (9 # 10)) |}.

Definition holdingOnBase : State :=
  {| positions := [(baseAddress, heldOnBase)]; positionsFile := NoFile;
     tradesLog := []; console := []; clock := 0 |}.

(** A base pair without a [baseToken]. *)
Definition headless : Pair :=
  {| pr_chainId := VStr "base"; pr_baseToken := None;
     pr_priceUsd := VStr "1.00"; pr_priceChange_h24 := VNum (Fin 12);
     pr_volume_h24 := VNum (Fin 80000);
     pr_liquidity_usd := VNum (Fin 150000); pr_fdv := VNum (Fin 200000);
     pr_pairAddress := VStr "0xQ" |}.

(** A world whose trending answer lists a good pair and a headless one. *)
Definition spoiled : World :=
  {| dateNow := fun _ => 0%Z;
     getTrending :=
       fun _ => Some [Runs.basePair (VStr "1.00"); headless];
     getTokenPairs := fun _ _ => None;
     getQuoteData := fun _ _ _ _ => None;
     sendSwap := fun _ _ => None |}.

(** A base pair whose symbol is a number. *)
Definition numbered : Pair :=
  {| pr_chainId := VStr "base";
     pr_baseToken :=
       Some {| bt_address := VStr "0xB"; bt_symbol := VNum (Fin 7);
               bt_name := VStr "Seven" |};
     pr_priceUsd := VStr "1.00"; pr_priceChange_h24 := VNum (Fin 12);
     pr_volume_h24 := VNum (Fin 80000);
     pr_liquidity_usd := VNum (Fin 150000); pr_fdv := VNum (Fin 200000);
     pr_pairAddress := VStr "0xR" |}.

(** A world whose trending answer lists a good pair, then one with a
    number for its symbol. *)
Definition oddSymbol : World :=
  {| dateNow := fun _ => 0%Z;
     getTrending :=
       fun _ => Some [Runs.basePair (VStr "1.00"); numbered];
     getTokenPairs := fun _ _ => None;
     getQuoteData := fun _ _ _ _ => None;
     sendSwap := fun _ _ => None |}.

(** A world like [Runs.market] that lists its pair as trending. *)
Definition trending (t : Z) (priceUsd : value) : World :=
  {| dateNow := fun _ => t;
     getTrending := fun _ => Some [Runs.basePair priceUsd];
     getTokenPairs := fun _ _ => Some [Runs.basePair priceUsd];
     getQuoteData := fun _ _ _ amount =>
       Some {| q_inAmount := VNum amount; q_outAmount := VStr "8500000";
               q_inputDecimals := None; q_outputDecimals := None;
               q_priceImpactPct := VUndefined |};
     sendSwap := fun _ _ => Some "5igNature" |}.

(** [Runs.market] without its swap endpoint. *)
Definition noSending (t : Z) (priceUsd : value) : World :=
  {| dateNow := dateNow (Runs.market t priceUsd);
     getTrending := getTrending (Runs.market t priceUsd);
     getTokenPairs := getTokenPairs (Runs.market t priceUsd);
     getQuoteData := getQuoteData (Runs.market t priceUsd);
     sendSwap := fun _ _ => None |}.

(** An environment that sets every number to zero. *)
Definition zeros : Environment :=
  fun n => if String.eqb n "BLACKLIST" then Some " Meme , RUG " else Some "0".

(** A snapshot file with two records, one of them for the address of
    [Runs.held]. *)
Definition twoRecords : State :=
  {| positions := [(Runs.heldAddress, Runs.held)];
     positionsFile := Records [stopless; heldOnBase];
     tradesLog := []; console := []; clock := 0 |}.

(** A snapshot file whose array holds a record, then a [null], then a
    record for a Base address; the store is empty. *)
Definition nullInTheMiddle : State :=
  {| positions := [];
     positionsFile := RecordsWithNull [stopless] [Some heldOnBase];
     tradesLog := []; console := []; clock := 0 |}.

(** A store that holds the position [Runs.entered]. *)
Definition holdingEntered : State :=
  {| positions := [(Runs.heldAddress, Runs.entered)]; positionsFile := NoFile;
     tradesLog := []; console := []; clock := 0 |}.

End Cases.

Example default_blacklist :
  Monitor.blacklist Runs.defaults = ["meme"; "scam"; "inu"; "doge"]%string.
Proof. vm_compute. reflexivity. Qed.

Example foo_qualifies :
  Monitor.isGoodOpportunity Runs.defaults [] Runs.foo = Store.Normal true.
Proof. vm_compute. reflexivity. Qed.

Example foo_opens :
  map (fun e => (Store.p_entryPrice (snd e), Store.p_stopLoss (snd e)))
      (Store.positions
         (snd (Monitor.enterPosition Runs.paper (Runs.silent 0) Runs.foo
                 Runs.emptyState)))
  = [(Js.VNum (Js.Fin 1), Js.VNum (Js.Fin (1 * (1 + - (10 / 100)))))].
Proof. vm_compute. reflexivity. Qed.

(* ================================================================== *)
(** * Numbers: order and arithmetic facts *)

Section NumberFacts.
Import Js.

Lemma Qltb_lt (a b : Q) : Qltb a b = true <-> a < b.
Proof.
  unfold Qltb. rewrite negb_true_iff.
  destruct (Qle_bool b a) eqn:E.
  - apply Qle_bool_iff in E. split; [discriminate | intro H; lra].
  - split; [intros _ | reflexivity].
    destruct (Qlt_le_dec a b) as [H | H]; [exact H |].
    apply Qle_bool_iff in H. congruence.
Qed.

Lemma Qltb_negb_le (a b : Q) : Qltb a b = negb (Qle_bool b a).
Proof. reflexivity. Qed.

(** On numbers that are not [NaN], [x < y] is the negation of [y <= x]. *)
Lemma ltb_negb_leb (x y : number) :
  isNaN x = false -> isNaN y = false -> ltb x y = negb (leb y x).
Proof.
  destruct x, y; simpl; intros; try reflexivity; try discriminate.
Qed.

Lemma leb_refl (x : number) : isNaN x = false -> leb x x = true.
Proof.
  destruct x; simpl; intros; try reflexivity; try discriminate.
  apply Qle_bool_iff. lra.
Qed.

Lemma ltb_irrefl (x : number) : ltb x x = false.
Proof.
  destruct x; simpl; try reflexivity.
  unfold Qltb. apply negb_false_iff, Qle_bool_iff. lra.
Qed.

Lemma ltb_leb (x y : number) : ltb x y = true -> leb x y = true.
Proof.
  destruct x, y; simpl; try reflexivity; try discriminate.
  rewrite Qltb_lt, Qle_bool_iff. lra.
Qed.

(** The two exit rules on the profit never hold together. *)
Lemma ltb_20_gtb_50 (x : number) :
  ltb x (ofZ 20) = true -> gtb x (ofZ 50) = false.
Proof.
  unfold gtb. destruct x; simpl; try reflexivity; try discriminate.
  rewrite Qltb_lt. intro H.
  unfold Qltb. apply negb_false_iff, Qle_bool_iff.
  unfold inject_Z in *. lra.
Qed.

Lemma orElse_not_NaN (x d : number) :
  isNaN d = false -> isNaN (orElse x d) = false.
Proof.
  unfold orElse. destruct x; simpl; intros; try assumption; try reflexivity.
  destruct (Qeq_bool q 0); simpl; [assumption | reflexivity].
Qed.


(** [x || 0] is [0] exactly when [x] is [NaN] or zero. *)
Lemma orElse_zero_NaN (x : number) : isNaN x = true -> orElse x zero = zero.
Proof. destruct x; simpl; intros; try discriminate; reflexivity. Qed.

End NumberFacts.

(* ================================================================== *)
(** * The exit rules of checkPosition *)

Section ExitRules.
Import Js Store Monitor Props.

(** The time rule and the profit rule exclude each other. *)
Lemma time_excludes_profit currentPrice t position :
  timeRule currentPrice t position = true ->
  profitRule currentPrice position = false.
Proof.
  unfold timeRule, profitRule. rewrite andb_true_iff. intros [_ H].
  now apply ltb_20_gtb_50.
Qed.

(** What [checkPosition] does, in terms of [exitDecision]: nothing when
    there is no data; otherwise the status line, the three checks, and the
    exit when they ask for it. *)
Lemma checkPosition_decides cfg w address position st :
  checkPosition cfg w address position st =
  match getTokenData w address st with
  | (Normal (Some data), st1) =>
      let currentPrice := td_price data in
      let st2 :=
        snd (log (PositionStatus position currentPrice
                    (pnlOf currentPrice position)) st1) in
      match exitDecision currentPrice (dateNow w (clock st2)) position with
      | Throw msg => (Throw msg, st2)
      | Normal d =>
          if fst d
          then exitPosition cfg w address position (snd d) (snd (interact st2))
          else (Normal tt, snd (interact st2))
      end
  | (Normal None, st1) => (Normal tt, st1)
  | (Throw msg, st1) => (Throw msg, st1)
  end.
Proof.
  unfold checkPosition, bind at 1.
  destruct (getTokenData w address st) as [[[data|]|msg] st1]; try reflexivity.
  unfold exitDecision, bind, lift, log, now, interact, ret; simpl.
  destruct (stopLossCheck (td_price data) position noExit) as [d1|];
    [| reflexivity].
  match goal with |- context [if ?b then _ else _] => destruct b end;
    reflexivity.
Qed.

End ExitRules.

Section ExitReasons.
Import Js Store Monitor Props.

(** The three checks assign in turn, so the decision is that of the last
    rule that matches. *)
Lemma exitDecision_cases currentPrice t position sl :
  p_stopLoss position = VNum sl ->
  exitDecision currentPrice t position =
  Normal
    (if profitRule currentPrice position
     then (true, ProfitTaking (pnlOf currentPrice position))
     else if timeRule currentPrice t position
     then (true, TimeExit (pnlOf currentPrice position))
     else if stopLossRule currentPrice position
     then (true, StopLossTriggered sl)
     else noExit).
Proof.
  intro Hsl.
  unfold exitDecision, stopLossCheck, profitCheck, timeCheck,
    profitRule, timeRule, stopLossRule.
  rewrite Hsl; simpl toNumber.
  destruct (leb currentPrice sl);
    destruct (gtb (pnlOf currentPrice position) (ofZ 50));
    destruct (gtb (sub (ofZ t) (p_entryTime position)) maxAge &&
              ltb (pnlOf currentPrice position) (ofZ 20));
    reflexivity.
Qed.

(** C1, as stated, fails: at price 0.85, five hours after an entry at 1
    with the stop at 0.9, the stop loss rule and the time rule both hold,
    and the close is recorded with the time exit as its reason. *)
Lemma stop_loss_overwritten_counterexample :
  let w := Runs.market Runs.fiveHours (VStr "0.85") in
  let currentPrice := td_price (tokenDataOf (Runs.basePair (VStr "0.85"))) in
  stopLossRule currentPrice Runs.held = true /\
  timeRule currentPrice Runs.fiveHours Runs.held = true /\
  recordedRules
    (tradesLog
       (snd (checkPosition Runs.paper w Runs.heldAddress Runs.held
               Runs.holding)))
  = [Some Time] /\
  Some Time <> Some StopLoss.
Proof.
  vm_compute. repeat split; discriminate.
Qed.

(** The scenarios of the specification, on the position entered at 1 with
    its stop at 0.9. *)
Example profit_before_four_hours :
  option_map (fun d => (fst d, ruleOf (snd d)))
    (match exitDecision (Fin (151 # 100)) 0 Runs.held with
     | Normal d => Some d
     | Throw _ => None
     end) = Some (true, Some Profit).
Proof. vm_compute. reflexivity. Qed.

Example time_exit_under_twenty :
  let t := (4 * 60 * 60 * 1000 + 1000)%Z in
  (match exitDecision (Fin (1199 # 1000)) t Runs.held with
   | Normal d => Some (fst d, ruleOf (snd d))
   | Throw _ => None
   end) = Some (true, Some Time) /\
  exitDecision (Fin (120 # 100)) t Runs.held = Normal noExit.
Proof. split; vm_compute; reflexivity. Qed.

Example stop_loss_under_the_stop :
  (match exitDecision (Fin (89 # 100)) 0 Runs.held with
   | Normal d => Some (fst d, ruleOf (snd d))
   | Throw _ => None
   end) = Some (true, Some StopLoss).
Proof. vm_compute. reflexivity. Qed.

End ExitReasons.

(* ================================================================== *)
(** * The opportunity filter *)

Section OpportunityFilter.
Import Js Store Monitor Props.

Lemma abs_not_NaN (x : number) : isNaN x = false -> isNaN (abs x) = false.
Proof. destruct x; simpl; intros; try discriminate; reflexivity. Qed.

Lemma isNaN_zero : isNaN zero = false.
Proof. reflexivity. Qed.

(** The filter as one boolean, on a token whose numeric fields read as
    numbers and whose symbol is a string. *)
Lemma isGoodOpportunity_bool cfg ps token s :
  thresholdsSet cfg -> numericFields token -> symbol token = VStr s ->
  isGoodOpportunity cfg ps token =
  Normal
    (geb (toNumber (volume24h token)) (minVolume24h cfg) &&
     geb (abs (toNumber (priceChange24h token))) (minPriceChange cfg) &&
     geb (toNumber (liquidity token)) (minLiquidity cfg) &&
     geb (toNumber (marketCap token)) (minMarketCap cfg) &&
     negb (blacklisted cfg s) &&
     negb (has (address token) ps) &&
     gtb (toNumber (priceChange24h token)) zero).
Proof.
  intros (Tv & Tc & Tl & Tm) (Fv & Fc & Fl & Fm) Hs.
  unfold isGoodOpportunity, geb, gtb, blacklisted. rewrite Hs.
  rewrite (ltb_negb_leb (toNumber (volume24h token)) (minVolume24h cfg) Fv Tv).
  rewrite (ltb_negb_leb (abs (toNumber (priceChange24h token)))
             (minPriceChange cfg) (abs_not_NaN _ Fc) Tc).
  rewrite (ltb_negb_leb (toNumber (liquidity token)) (minLiquidity cfg) Fl Tl).
  rewrite (ltb_negb_leb (toNumber (marketCap token)) (minMarketCap cfg) Fm Tm).
  rewrite (ltb_negb_leb zero (toNumber (priceChange24h token)) isNaN_zero Fc).
  destruct (leb (minVolume24h cfg) _); simpl; [| reflexivity].
  destruct (leb (minPriceChange cfg) _); simpl; [| reflexivity].
  destruct (leb (minLiquidity cfg) _); simpl; [| reflexivity].
  destruct (leb (minMarketCap cfg) _); simpl; [| reflexivity].
  destruct (existsb _ (blacklist cfg)); simpl; [reflexivity |].
  destruct (has (address token) ps); simpl; [reflexivity |].
  destruct (leb (toNumber (priceChange24h token)) zero); reflexivity.
Qed.

(** C2.  On a candidate (numeric fields that read as numbers, a string for
    symbol) and a configuration with its thresholds set, the filter returns
    true exactly when the seven conditions hold; a candidate that sits on
    the four thresholds passes them, and a price change of zero is
    refused. *)
Theorem isGoodOpportunity_iff_seven cfg ps token s :
  thresholdsSet cfg -> numericFields token -> symbol token = VStr s ->
  (isGoodOpportunity cfg ps token = Normal true <->
   sevenConditions cfg ps token s) /\
  (toNumber (volume24h token) = minVolume24h cfg ->
   abs (toNumber (priceChange24h token)) = minPriceChange cfg ->
   toNumber (liquidity token) = minLiquidity cfg ->
   toNumber (marketCap token) = minMarketCap cfg ->
   isGoodOpportunity cfg ps token =
   Normal (negb (blacklisted cfg s) && negb (has (address token) ps) &&
           gtb (toNumber (priceChange24h token)) zero)) /\
  (toNumber (priceChange24h token) = zero ->
   isGoodOpportunity cfg ps token = Normal false).
Proof.
  intros T F Hs.
  rewrite (isGoodOpportunity_bool cfg ps token s T F Hs).
  destruct T as (Tv & Tc & Tl & Tm). destruct F as (Fv & Fc & Fl & Fm).
  unfold sevenConditions. split; [split | split].
  - intro H. injection H as H.
    repeat (apply andb_true_iff in H; destruct H as [H ?]).
    repeat split; try assumption; now apply negb_true_iff.
  - intros (H1 & H2 & H3 & H4 & H5 & H6 & H7).
    now rewrite H1, H2, H3, H4, H5, H6, H7.
  - intros Ev Ec El Em. unfold geb.
    rewrite Ev, Ec, El, Em.
    now rewrite !leb_refl by assumption.
  - intro E. unfold gtb. rewrite E, ltb_irrefl.
    now rewrite !andb_false_r.
Qed.

Lemma isGoodOpportunity_iff_seven_witness :
  isGoodOpportunity Runs.defaults [] Runs.onThresholds = Normal true.
Proof.
  refine (proj1 (proj2 (isGoodOpportunity_iff_seven Runs.defaults []
                   Runs.onThresholds "FOO" _ _ eq_refl)) _ _ _ _);
    vm_compute; repeat split; reflexivity.
Defined.

(** Every token the normalizer builds has numeric fields that are numbers
    other than [NaN]. *)
Lemma toToken_numericFields pair token :
  toToken pair = Normal token -> numericFields token.
Proof.
  unfold toToken. destruct (pr_baseToken pair); [| discriminate].
  intro H. injection H as <-. unfold numericFields; simpl.
  repeat split; now apply orElse_not_NaN.
Qed.

(** Every configuration of the constructor has its thresholds set. *)
Lemma mkConfig_thresholdsSet env : thresholdsSet (mkConfig env).
Proof.
  unfold thresholdsSet, mkConfig, envFloat; simpl.
  repeat split; now apply orElse_not_NaN.
Qed.

(** C5, as amended.  The filter returns a boolean on every token whose
    symbol is a string.  A numeric field the normalizer found missing or
    unreadable has been set to zero by it, and the filter rejects the
    token when the threshold of that field is positive. *)
Theorem isGoodOpportunity_total_on_candidates cfg ps :
  (forall token s, symbol token = VStr s ->
     exists b, isGoodOpportunity cfg ps token = Normal b) /\
  (forall pair token, toToken pair = Normal token ->
     (isNaN (parseFloat (pr_volume_h24 pair)) = true /\
      ltb zero (minVolume24h cfg) = true) \/
     (isNaN (parseFloat (pr_priceChange_h24 pair)) = true /\
      ltb zero (minPriceChange cfg) = true) \/
     (isNaN (parseFloat (pr_liquidity_usd pair)) = true /\
      ltb zero (minLiquidity cfg) = true) \/
     (isNaN (parseFloat (pr_fdv pair)) = true /\
      ltb zero (minMarketCap cfg) = true) ->
     isGoodOpportunity cfg ps token = Normal false).
Proof.
  split.
  - intros token s Hs. unfold isGoodOpportunity. rewrite Hs.
    repeat match goal with
           | |- context [if ?b then _ else _] => destruct b
           end; eexists; reflexivity.
  - intros pair token Ht H.
    unfold toToken in Ht. destruct (pr_baseToken pair); [| discriminate].
    injection Ht as <-. unfold isGoodOpportunity; simpl.
    destruct H as [[N P] | [[N P] | [[N P] | [N P]]]];
      rewrite (orElse_zero_NaN _ N); try (change (abs zero) with zero);
      rewrite P;
      repeat match goal with
             | |- context [if ?b then _ else _] => destruct b
             end; reflexivity.
Qed.

Lemma isGoodOpportunity_total_on_candidates_witness :
  exists token,
    toToken Runs.noLiquidityPair = Normal token /\
    isGoodOpportunity Runs.defaults [] token = Normal false.
Proof.
  eexists. split; [reflexivity |].
  apply (proj2 (isGoodOpportunity_total_on_candidates Runs.defaults [])
           Runs.noLiquidityPair _ eq_refl).
  right; right; left. split; reflexivity.
Defined.

(** C5, as stated, fails on objects that are no candidates: without a
    symbol the filter throws, and without a volume it does not reject. *)
Lemma isGoodOpportunity_malformed_counterexample :
  isGoodOpportunity Runs.defaults [] Runs.noSymbol = Throw "TypeError" /\
  isGoodOpportunity Runs.defaults [] Runs.noVolume = Normal true.
Proof. split; vm_compute; reflexivity. Qed.

End OpportunityFilter.

(* ================================================================== *)
(** * What the executions do to the store and to the trade log *)

Section Effects.
Import Js Store Monitor Props.

Ltac run :=
  unfold Swap.swap, Swap.getQuote, Swap.executeSwap, Swap.logTrade,
    entryFill, exitFill, savePositions, logTrade,
    bind, tryCatch, lift, ret, throw, log, interact, now, appendTrade,
    setPositions, writePositionsFile, getPositions; simpl.

Ltac quiet_console :=
  unfold attempts; rewrite ?flat_map_app; simpl; rewrite ?app_nil_r;
  reflexivity.

(** Case analysis on the innermost scrutinee. *)
Ltac branches :=
  repeat match goal with
         | |- context [match ?x with _ => _ end] =>
             lazymatch x with
             | context [match _ with _ => _ end] => fail
             | _ => destruct x; simpl
             end
         end.

(** A swap touches neither the store nor its file, and appends its one
    [SWAP] line exactly when it succeeds. *)
Lemma swap_effect w inputToken outputToken amount dry st :
  let r := Swap.swap w inputToken outputToken amount dry st in
  positions (snd r) = positions st /\
  positionsFile (snd r) = positionsFile st /\
  tradesLog (snd r) =
  tradesLog st ++ match fst r with
                  | Normal result => [SwapLine result]
                  | Throw _ => []
                  end /\
  attempts (console (snd r)) = attempts (console st).
Proof.
  run. branches; repeat split; auto using app_nil_r; quiet_console.
Qed.

Lemma entryFill_effect cfg w token st :
  let r := entryFill cfg w token st in
  positions (snd r) = positions st /\
  positionsFile (snd r) = positionsFile st /\
  tradesLog (snd r) =
  tradesLog st ++ match fst r with
                  | Normal result =>
                      if dryRun cfg then [] else [SwapLine result]
                  | Throw _ => []
                  end /\
  attempts (console (snd r)) = attempts (console st).
Proof.
  unfold entryFill. destruct (dryRun cfg).
  - run. repeat split; auto using app_nil_r.
  - apply swap_effect.
Qed.

(** [enterPosition], step by step. *)
Lemma enterPosition_run cfg w token st :
  enterPosition cfg w token st =
  match entryFill cfg w token (snd (log (EnteringPosition token) st)) with
  | (Throw msg, st1) => log (FailedToEnter token msg) st1
  | (Normal result, st1) =>
      let position := newPosition cfg token result (dateNow w (clock st1)) in
      let ps := set (address token) position (positions st1) in
      (Normal tt,
       {| positions := ps;
          positionsFile := Records (snapshot ps);
          tradesLog := tradesLog st1;
          console := console st1 ++ [PositionEntered position];
          clock := S (clock st1) |})
  end.
Proof.
  unfold enterPosition, tryCatch, bind at 1 2.
  unfold log at 1. simpl.
  destruct (entryFill cfg w token _) as [[result | msg] st1]; reflexivity.
Qed.

(** [exitPosition], step by step. *)
Lemma exitPosition_run cfg w address position reason st :
  exitPosition cfg w address position reason st =
  match exitFill cfg w address position
          (snd (log (ExitingPosition position reason) st)) with
  | (Throw msg, st1) => log (FailedToExit position msg) st1
  | (Normal result, st1) =>
      let finalValue := r_outputAmount result in
      let pnl := sub finalValue (toNumber (p_usdcInvested position)) in
      let ps := delete address (positions st1) in
      let exitTime := dateNow w (clock st1) in
      (Normal tt,
       {| positions := ps;
          positionsFile := Records (snapshot ps);
          tradesLog :=
            tradesLog st1 ++
            [TradeLine (dateNow w (S (clock st1)))
               (exitTrade position reason result exitTime)];
          console := console st1 ++ [PositionClosed position finalValue pnl];
          clock := S (S (clock st1)) |})
  end.
Proof.
  unfold exitPosition, tryCatch, bind at 1 2.
  unfold log at 1. simpl.
  destruct (exitFill cfg w address position _) as [[result | msg] st1];
    reflexivity.
Qed.

(** C3.  An open whose execution fails inserts nothing, and a close whose
    execution fails removes nothing: the store, its file and the trade log
    are as they were. *)
Theorem failed_execution_keeps_store cfg w st :
  (forall token msg,
     fst (entryFill cfg w token (snd (log (EnteringPosition token) st)))
     = Throw msg ->
     let st' := snd (enterPosition cfg w token st) in
     positions st' = positions st /\
     positionsFile st' = positionsFile st /\
     tradesLog st' = tradesLog st) /\
  (forall address position reason msg,
     fst (exitFill cfg w address position
            (snd (log (ExitingPosition position reason) st)))
     = Throw msg ->
     let st' := snd (exitPosition cfg w address position reason st) in
     positions st' = positions st /\
     positionsFile st' = positionsFile st /\
     tradesLog st' = tradesLog st).
Proof.
  split.
  - intros token msg H. rewrite enterPosition_run.
    pose proof (entryFill_effect cfg w token
                  (snd (log (EnteringPosition token) st))) as E.
    destruct (entryFill cfg w token _) as [[result | m] st1];
      simpl in H; [discriminate |].
    simpl in E |- *. destruct E as (E1 & E2 & E3 & _).
    rewrite E1, E2, E3. auto using app_nil_r.
  - intros address position reason msg H. rewrite exitPosition_run.
    unfold exitFill in *.
    pose proof (swap_effect w address (VStr "USDC")
                  (floor (mul (toNumber (p_amount position)) (pow10 6)))
                  (dryRun cfg)
                  (snd (log (ExitingPosition position reason) st))) as E.
    destruct (Swap.swap w address _ _ _ _) as [[result | m] st1];
      simpl in H; [discriminate |].
    simpl in E |- *. destruct E as (E1 & E2 & E3 & _).
    rewrite E1, E2, E3. auto using app_nil_r.
Qed.

Lemma failed_execution_keeps_store_witness :
  positions (snd (enterPosition Runs.defaults (Runs.silent 0) Runs.foo
                    Runs.emptyState)) = [] /\
  positions (snd (exitPosition Runs.defaults (Runs.silent 0)
                    Runs.heldAddress Runs.held NoReason Runs.holding))
  = [(Runs.heldAddress, Runs.held)].
Proof.
  split.
  - exact (proj1 (proj1 (failed_execution_keeps_store Runs.defaults
                           (Runs.silent 0) Runs.emptyState)
                    Runs.foo "Unknown token symbol: 0xA"%string eq_refl)).
  - exact (proj1 (proj2 (failed_execution_keeps_store Runs.defaults
                           (Runs.silent 0) Runs.holding)
                    Runs.heldAddress Runs.held NoReason
                    "No quote received from Jupiter"%string eq_refl)).
Defined.

(** What an open appends to the trade log: nothing in a dry run, and the
    swap helper's [SWAP] line otherwise. *)
Lemma enterPosition_log cfg w token st :
  tradesLog (snd (enterPosition cfg w token st)) =
  tradesLog st ++
  match fst (entryFill cfg w token (snd (log (EnteringPosition token) st)))
  with
  | Normal result => if dryRun cfg then [] else [SwapLine result]
  | Throw _ => []
  end.
Proof.
  rewrite enterPosition_run.
  pose proof (entryFill_effect cfg w token
                (snd (log (EnteringPosition token) st))) as E.
  destruct (entryFill cfg w token _) as [[result | m] st1];
    simpl in E |- *; destruct E as (_ & _ & E3 & _); exact E3.
Qed.

(** C4 does not hold of the code.  No open appends a line of type
    [ENTRY]: the only line an open can append is the [SWAP] line of the
    helper, and in a dry run the candidate of the scenario is opened,
    stored and saved with the trade log left empty. *)
Theorem enterPosition_appends_no_ENTRY :
  (forall cfg w token st,
     exists extra,
       tradesLog (snd (enterPosition cfg w token st)) = tradesLog st ++ extra
       /\ Forall (fun l => lineType l = "SWAP"%string) extra
       /\ (if dryRun cfg then extra = [] else True)) /\
  (let st' := snd (enterPosition Runs.paper (Runs.silent 0) Runs.foo
                     Runs.emptyState) in
   has (address Runs.foo) (positions st') = true /\
   positionsFile st' = Records (snapshot (positions st')) /\
   tradesLog st' = []).
Proof.
  split.
  - intros cfg w token st. rewrite enterPosition_log.
    eexists; split; [reflexivity |].
    destruct (fst (entryFill cfg w token _)); destruct (dryRun cfg);
      repeat constructor.
  - vm_compute. repeat split.
Qed.

End Effects.

(* ================================================================== *)
(** * The store as a map *)

Section MapFacts.
Import Js Store.
Context {V : Type}.

Lemma sameValueZero_refl (k : value) : sameValueZero k k = true.
Proof.
  destruct k as [| | b | n | s]; simpl; try reflexivity.
  - now destruct b.
  - destruct n; simpl; try reflexivity. apply Qeq_bool_iff. reflexivity.
  - apply String.eqb_refl.
Qed.

Lemma sameNumber_sym (x y : number) : sameNumber x y = sameNumber y x.
Proof.
  destruct x, y; simpl; try reflexivity.
  destruct (Qeq_bool q q0) eqn:E1, (Qeq_bool q0 q) eqn:E2; try reflexivity.
  - apply Qeq_bool_iff in E1. symmetry in E1. apply Qeq_bool_iff in E1.
    congruence.
  - apply Qeq_bool_iff in E2. symmetry in E2. apply Qeq_bool_iff in E2.
    congruence.
Qed.

Lemma sameValueZero_sym (a b : value) : sameValueZero a b = sameValueZero b a.
Proof.
  destruct a as [| | x | x | x], b as [| | y | y | y]; simpl;
    try reflexivity.
  - now destruct x, y.
  - apply sameNumber_sym.
  - apply String.eqb_sym.
Qed.

Lemma sameValueZero_trans (a b c : value) :
  sameValueZero a b = true -> sameValueZero b c = true ->
  sameValueZero a c = true.
Proof.
  destruct a as [| | x | x | x], b as [| | y | y | y], c as [| | z | z | z];
    simpl; try discriminate; auto.
  - destruct x, y, z; simpl; congruence.
  - destruct x as [| | x |], y as [| | y |], z as [| | z |];
      simpl; try discriminate; auto.
    rewrite !Qeq_bool_iff. intros H1 H2. now rewrite H1.
  - rewrite !String.eqb_eq. congruence.
Qed.

Lemma existsb_false_In {A} (f : A -> bool) (l : list A) :
  existsb f l = false <-> forall a, In a l -> f a = false.
Proof.
  split.
  - intros H a Ha. destruct (f a) eqn:E; [| reflexivity].
    assert (T : existsb f l = true) by (apply existsb_exists; eauto).
    congruence.
  - intro H. destruct (existsb f l) eqn:E; [| reflexivity].
    apply existsb_exists in E as (a & Ha & Fa). rewrite (H a Ha) in Fa.
    discriminate.
Qed.

Lemma size_set_le (k : value) (v : V) (m : Map V) :
  (size (set k v m) <= S (size m))%nat.
Proof.
  unfold size. induction m as [| [k' v'] r IH]; simpl; [lia |].
  destruct (sameValueZero k' k); simpl; lia.
Qed.

Lemma get_set_same (k : value) (v : V) (m : Map V) :
  get k (set k v m) = Some v.
Proof.
  induction m as [| [k' v'] r IH]; simpl.
  - now rewrite sameValueZero_refl.
  - destruct (sameValueZero k' k) eqn:E; simpl; rewrite E; auto.
Qed.

Lemma has_set_same (k : value) (v : V) (m : Map V) :
  has k (set k v m) = true.
Proof. unfold has. now rewrite get_set_same. Qed.

Lemma In_delete (k : value) (e : value * V) (m : Map V) :
  In e (delete k m) -> In e m.
Proof.
  induction m as [| [k' v'] r IH]; simpl; [auto |].
  destruct (sameValueZero k' k); simpl; intuition.
Qed.

(** A key that is not in the map goes to its end. *)
Lemma set_fresh (k : value) (v : V) (m : Map V) :
  get k m = None -> set k v m = m ++ [(k, v)].
Proof.
  induction m as [| [k' v'] r IH]; simpl; [reflexivity |].
  destruct (sameValueZero k' k); [discriminate |].
  intro H. now rewrite IH.
Qed.

End MapFacts.

(* ================================================================== *)
(** * The scan *)

Section Scan.
Import Js Store Monitor Props.

Ltac run :=
  unfold bind, tryCatch, lift, ret, throw, log, interact, now, appendTrade,
    setPositions, writePositionsFile, getPositions; simpl.

Lemma quiet_refl st : quiet st st.
Proof. unfold quiet; auto. Qed.

Lemma quiet_trans st1 st2 st3 : quiet st1 st2 -> quiet st2 st3 -> quiet st1 st3.
Proof.
  unfold quiet. intros (A1 & A2 & A3 & A4) (B1 & B2 & B3 & B4).
  repeat split; congruence.
Qed.

Lemma attempts_app l1 l2 : attempts (l1 ++ l2) = attempts l1 ++ attempts l2.
Proof. apply flat_map_app. Qed.

Lemma fetchPopular_quiet w cfg tokens :
  forall pairs st,
    exists l, fst (fetchPopular w cfg tokens pairs st) = Normal l /\
              quiet st (snd (fetchPopular w cfg tokens pairs st)).
Proof.
  induction tokens as [| tokenAddress rest IH]; intros pairs st.
  - exists pairs. split; [reflexivity | apply quiet_refl].
  - cbn [fetchPopular]. unfold bind, interact. cbn beta iota.
    destruct (getTokenPairs w (clock st) (VStr tokenAddress)) as [tp |].
    + match goal with
      | |- context [fetchPopular w cfg rest ?p ?s] =>
          destruct (IH p s) as (l & E & Q); exists l; split; [exact E |];
          refine (quiet_trans _ _ _ _ Q); unfold quiet; simpl; auto
      end.
    + match goal with
      | |- context [fetchPopular w cfg rest ?p ?s] =>
          destruct (IH p s) as (l & E & Q); exists l; split; [exact E |];
          refine (quiet_trans _ _ _ _ Q); unfold quiet; simpl; auto
      end.
Qed.

(** The feed never throws and is quiet. *)
Lemma getTrendingTokens_quiet w cfg st :
  exists tokens,
    fst (getTrendingTokens w cfg st) = Normal tokens /\
    quiet st (snd (getTrendingTokens w cfg st)).
Proof.
  unfold getTrendingTokens, bind, interact. cbn beta iota.
  set (trending := match getTrending w (clock st) with
                   | Some l => l
                   | None => []
                   end).
  set (st0 := {| positions := positions st; positionsFile := positionsFile st;
                 tradesLog := tradesLog st; console := console st;
                 clock := S (clock st) |}).
  assert (Q0 : quiet st st0) by (unfold quiet, st0; simpl; auto).
  assert (finish : forall pairs st1, quiet st st1 ->
            exists tokens,
              fst (match pairs with
                   | [] => ret []
                   | _ :: _ =>
                       match mapC toToken (filter isBase pairs) with
                       | Normal tokens => ret (filter keepToken tokens)
                       | Throw msg =>
                           fun st2 =>
                             match log (ErrorFetching msg) st2 with
                             | (Normal _, st') => ret [] st'
                             | (Throw m, st') => (Throw m, st')
                             end
                       end
                   end st1) = Normal tokens /\
              quiet st
                (snd (match pairs with
                      | [] => ret []
                      | _ :: _ =>
                          match mapC toToken (filter isBase pairs) with
                          | Normal tokens => ret (filter keepToken tokens)
                          | Throw msg =>
                              fun st2 =>
                                match log (ErrorFetching msg) st2 with
                                | (Normal _, st') => ret [] st'
                                | (Throw m, st') => (Throw m, st')
                                end
                          end
                      end st1))).
  { intros pairs st1 Q1.
    destruct pairs as [| p r]; [eexists; split; [reflexivity | exact Q1] |].
    destruct (mapC toToken (filter isBase (p :: r))).
    - eexists; split; [reflexivity | exact Q1].
    - eexists; split; [reflexivity |].
      destruct Q1 as (A1 & A2 & A3 & A4). unfold quiet; simpl.
      rewrite attempts_app, A4. simpl. rewrite app_nil_r. auto. }
  destruct ((List.length trending =? 0)%nat || negb (existsb isBase trending)).
  - destruct (fetchPopular_quiet w cfg (firstn 2 popularTokens) trending st0)
      as (l & E & Q).
    destruct (fetchPopular w cfg (firstn 2 popularTokens) trending st0)
      as [r st1]. simpl in E, Q. subst r. unfold ret at 1. cbn beta iota.
    apply finish. exact (quiet_trans _ _ _ Q0 Q).
  - unfold ret at 1. cbn beta iota. apply finish. exact Q0.
Qed.

(** [tokens.filter(f)], when no call of [f] throws, is the filter. *)
Lemma filterC_filter {A} (f : A -> Completion bool) (l r : list A) :
  filterC f l = Normal r ->
  r = filter (fun a => match f a with Normal b => b | Throw _ => false end) l.
Proof.
  revert r. induction l as [| a l IH]; simpl; intros r H.
  - now injection H as <-.
  - destruct (f a) as [b | msg]; [| discriminate].
    destruct (filterC f l) as [r' | msg]; [| discriminate].
    injection H as <-. rewrite (IH r' eq_refl). now destruct b.
Qed.

(** One open: the attempt is announced, and the store grows by at most
    one position. *)
Lemma enterPosition_effect cfg w token st :
  let r := enterPosition cfg w token st in
  fst r = Normal tt /\
  attempts (console (snd r)) = attempts (console st) ++ [token] /\
  (size (positions (snd r)) <= S (size (positions st)))%nat.
Proof.
  cbv zeta. rewrite enterPosition_run.
  pose proof (entryFill_effect cfg w token
                (snd (log (EnteringPosition token) st))) as E.
  destruct (entryFill cfg w token _) as [[result | m] st1];
    simpl in E |- *; destruct E as (E1 & _ & _ & E4);
    rewrite attempts_app, E4, attempts_app; simpl; rewrite app_nil_r.
  - repeat split. rewrite E1. apply size_set_le.
  - repeat split. rewrite E1. lia.
Qed.

(** The loop over the top opportunities: it never throws; it leaves the
    count of positions where it was or at most at the limit; and it begins
    the opens of a first part of its list, in order. *)
Lemma openPositions_capacity cfg w tokens :
  forall st,
    let r := openPositions cfg w tokens st in
    fst r = Normal tt /\
    ((size (positions (snd r)) <= size (positions st))%nat \/
     (Z.of_nat (size (positions (snd r))) <= maxPositions cfg)%Z) /\
    exists k, (k <= List.length tokens)%nat /\
              attempts (console (snd r)) =
              attempts (console st) ++ firstn k tokens.
Proof.
  induction tokens as [| token rest IH]; intro st; cbv zeta.
  - simpl. repeat split; [left; lia |].
    exists 0%nat. simpl. now rewrite app_nil_r.
  - cbn [openPositions]. unfold bind, getPositions. cbn beta iota.
    destruct (maxPositions cfg <=? Z.of_nat (size (positions st)))%Z eqn:Full.
    + simpl. repeat split; [left; lia |].
      exists 0%nat. split; [lia |].
      rewrite attempts_app. simpl. now rewrite !app_nil_r.
    + apply Z.leb_gt in Full.
      destruct (enterPosition_effect cfg w token st) as (E1 & E2 & E3).
      destruct (enterPosition cfg w token st) as [c st1].
      simpl in E1, E2, E3. subst c.
      destruct (IH st1) as (I1 & I2 & k & Ik & I3).
      split; [exact I1 |]. split.
      * right. destruct I2 as [I2 | I2]; lia.
      * exists (S k). split; [simpl; lia |].
        rewrite I3, E2. simpl. now rewrite <- app_assoc.
Qed.

(** With the store at its limit the loop opens nothing. *)
Lemma openPositions_full cfg w tokens st :
  (maxPositions cfg <= Z.of_nat (size (positions st)))%Z ->
  positions (snd (openPositions cfg w tokens st)) = positions st /\
  attempts (console (snd (openPositions cfg w tokens st))) =
  attempts (console st).
Proof.
  intro Full. destruct tokens as [| token rest]; [split; reflexivity |].
  cbn [openPositions]. unfold bind, getPositions. cbn beta iota.
  apply Z.leb_le in Full. rewrite Full. simpl.
  rewrite attempts_app. simpl. now rewrite app_nil_r.
Qed.

(** [scanMarkets], step by step. *)
Lemma scanMarkets_run cfg w st :
  let st1 := snd (bind (now w) (fun _ => log Scanning) st) in
  let tokens := scanFeed cfg w st in
  let st2 := snd (getTrendingTokens w cfg st1) in
  let st3 := snd (log (FoundTokens (List.length tokens)) st2) in
  scanMarkets cfg w st =
  match filterC (isGoodOpportunity cfg (positions st3)) tokens with
  | Throw msg => log (ErrorScanning msg) st3
  | Normal [] => log NoOpportunities st3
  | Normal opportunities =>
      if forallb (fun t => isNumber (priceChange24h t)) opportunities
      then openPositions cfg w (firstn 3 opportunities)
             (snd (log (Opportunities opportunities) st3))
      else log (ErrorScanning "TypeError") st3
  end.
Proof.
  cbv zeta.
  unfold scanMarkets, scanFeed, tryCatch, now.
  unfold bind, interact, ret, log, getPositions, lift, throw.
  cbn beta iota. cbn [fst snd positions positionsFile tradesLog console clock].
  match goal with
  | |- context [getTrendingTokens w cfg ?s] =>
      destruct (getTrendingTokens_quiet w cfg s) as (tokens & E & _);
      destruct (getTrendingTokens w cfg s) as [r st2]
  end.
  simpl in E. subst r. cbn beta iota.
  cbn [fst snd positions positionsFile tradesLog console clock].
  destruct (filterC _ tokens) as [[| t opportunities] | msg];
    cbn beta iota; try reflexivity.
  destruct (forallb _ (t :: opportunities)); cbn beta iota; [| reflexivity].
  match goal with
  | |- context [openPositions cfg w ?l ?s] =>
      pose proof (openPositions_capacity cfg w l s) as (N & _);
      destruct (openPositions cfg w l s) as [c st4] eqn:EO
  end.
  simpl in N. subst c. symmetry. exact EO.
Qed.

Lemma log_positions e st : positions (snd (log e st)) = positions st.
Proof. reflexivity. Qed.

Lemma log_attempts e st :
  attempts (console (snd (log e st))) = attempts (console st) ++ attemptOf e.
Proof.
  unfold log; simpl. rewrite attempts_app. simpl. now rewrite app_nil_r.
Qed.

(** The scan up to the filter is quiet. *)
Lemma scan_prefix_quiet cfg w st n :
  quiet st
    (snd (log (FoundTokens n)
            (snd (getTrendingTokens w cfg
                    (snd (bind (now w) (fun _ => log Scanning) st)))))).
Proof.
  destruct (getTrendingTokens_quiet w cfg
              (snd (bind (now w) (fun _ => log Scanning) st)))
    as (tokens & _ & Q).
  refine (quiet_trans _ _ _ _ (quiet_trans _ _ _ Q _)).
  - unfold quiet; simpl. rewrite attempts_app. simpl.
    now rewrite app_nil_r.
  - unfold quiet. rewrite log_attempts. simpl. now rewrite app_nil_r.
Qed.

(** C6.  A scan leaves the count of open positions where it was or at
    most at [maxPositions]; it begins at most three opens, those of a first
    part of the qualifying tokens in the order of the feed; and with the
    store at its limit the loop begins none. *)
Theorem scan_respects_capacity cfg w st :
  let st' := snd (scanMarkets cfg w st) in
  ((size (positions st') <= size (positions st))%nat \/
   (Z.of_nat (size (positions st')) <= maxPositions cfg)%Z) /\
  (exists k, (k <= 3)%nat /\
     attempts (console st') =
     attempts (console st) ++
     firstn k (filter (qualifies cfg (positions st)) (scanFeed cfg w st))) /\
  (forall tokens s,
     (maxPositions cfg <= Z.of_nat (size (positions s)))%Z ->
     positions (snd (openPositions cfg w tokens s)) = positions s /\
     attempts (console (snd (openPositions cfg w tokens s))) =
     attempts (console s)).
Proof.
  cbv zeta. split; [| split]; [| | intros; now apply openPositions_full].
  - (* the count *)
    rewrite scanMarkets_run.
    destruct (scan_prefix_quiet cfg w st (List.length (scanFeed cfg w st)))
      as (P3 & _).
    set (st3 := snd (log (FoundTokens _) _)) in *.
    destruct (filterC _ _) as [[| t opportunities] | msg];
      try (rewrite log_positions, P3; left; reflexivity).
    destruct (forallb _ _); [| rewrite log_positions, P3; left; reflexivity].
    match goal with
    | |- context [openPositions cfg w ?l ?s] =>
        destruct (openPositions_capacity cfg w l s) as (_ & C & _)
    end.
    rewrite log_positions, P3 in C. exact C.
  - (* the attempts *)
    rewrite scanMarkets_run.
    destruct (scan_prefix_quiet cfg w st (List.length (scanFeed cfg w st)))
      as (P3 & _ & _ & A3).
    set (st3 := snd (log (FoundTokens _) _)) in *.
    destruct (filterC _ _) as [[| t opportunities] | msg] eqn:F;
      try (exists 0%nat; split; [lia |];
           rewrite log_attempts, A3; reflexivity).
    destruct (forallb _ _);
      [| exists 0%nat; split; [lia |];
         rewrite log_attempts, A3; reflexivity].
    match goal with
    | |- context [openPositions cfg w ?l ?s] =>
        destruct (openPositions_capacity cfg w l s) as (_ & _ & k & K & E)
    end.
    rewrite E. rewrite length_firstn in K.
    exists k. split; [lia |].
    rewrite firstn_firstn, (Nat.min_l k 3) by lia.
    rewrite P3 in F. apply filterC_filter in F. rewrite F.
    rewrite log_attempts, A3. simpl attemptOf. now rewrite app_nil_r.
Qed.

Lemma scan_respects_capacity_witness :
  positions (snd (openPositions Runs.paper (Runs.silent 0) [Runs.foo]
                    Runs.crowded)) = positions Runs.crowded.
Proof.
  apply (proj2 (proj2 (scan_respects_capacity Runs.paper (Runs.silent 0)
                         Runs.emptyState))).
  vm_compute. discriminate.
Defined.

End Scan.

(* ================================================================== *)
(** * Evaluating the open positions *)

Section Evaluate.
Import Js Store Monitor Props Upkeep.

Ltac run :=
  unfold Swap.swap, Swap.getQuote, Swap.executeSwap, Swap.logTrade,
    bind, tryCatch, lift, ret, throw, log, interact, now, appendTrade,
    setPositions, writePositionsFile, getPositions; simpl.

(** A swap writes only its own lines to the console. *)
Lemma swap_console w inputToken outputToken amount dry st :
  exists extra,
    console (snd (Swap.swap w inputToken outputToken amount dry st)) =
    console st ++ extra /\
    forallb swapEvent extra = true.
Proof.
  run.
  destruct (Swap.getMintAddress inputToken); simpl;
    [| eexists; rewrite <- app_assoc; split; reflexivity].
  destruct (Swap.getMintAddress outputToken); simpl;
    [| eexists; rewrite <- app_assoc; split; reflexivity].
  destruct (getQuoteData w _ _ _ _); simpl;
    [| eexists; rewrite <- app_assoc; split; reflexivity].
  destruct dry; simpl; [eexists; split; reflexivity |].
  destruct (sendSwap w _ _); simpl;
    eexists; rewrite <- ?app_assoc; split; reflexivity.
Qed.

Lemma closeAttempts_app l1 l2 :
  closeAttempts (l1 ++ l2) = closeAttempts l1 ++ closeAttempts l2.
Proof. apply flat_map_app. Qed.

Lemma closeAttempts_swap extra :
  forallb swapEvent extra = true -> closeAttempts extra = [].
Proof.
  induction extra as [| e r IH]; simpl; [reflexivity |].
  rewrite andb_true_iff. intros [He Hr].
  destruct e; try discriminate; simpl; auto.
Qed.

(** A close announces itself once, and takes out of the store nothing but
    the entry of its address. *)
Lemma exitPosition_effect cfg w address position reason st :
  let st' := snd (exitPosition cfg w address position reason st) in
  fst (exitPosition cfg w address position reason st) = Normal tt /\
  closeAttempts (console st') =
  closeAttempts (console st) ++ [(position, reason)] /\
  (positions st' = positions st \/
   positions st' = delete address (positions st)).
Proof.
  cbv zeta. rewrite exitPosition_run. unfold exitFill.
  set (st0 := snd (log (ExitingPosition position reason) st)).
  destruct (swap_console w address (VStr "USDC")
              (floor (mul (toNumber (p_amount position)) (pow10 6)))
              (dryRun cfg) st0) as (extra & C & S).
  destruct (swap_effect w address (VStr "USDC")
              (floor (mul (toNumber (p_amount position)) (pow10 6)))
              (dryRun cfg) st0) as (P & _).
  destruct (Swap.swap w address _ _ _ st0) as [[result | msg] st1];
    simpl in C, P |- *; rewrite C, P;
    rewrite !closeAttempts_app, (closeAttempts_swap extra S); simpl;
    rewrite !app_nil_r; auto.
Qed.

Lemma checkPosition_store cfg w address position st :
  incl (positions (snd (checkPosition cfg w address position st)))
       (positions st).
Proof.
  rewrite checkPosition_decides.
  unfold getTokenData, bind, interact, ret. cbn beta iota.
  destruct (getTokenPairs w (clock st) address) as [pairs |];
    [| apply incl_refl].
  destruct (find isBase pairs) as [found |]; [| apply incl_refl].
  cbv zeta.
  destruct (exitDecision _ _ position) as [[[] reason] | msg];
    try apply incl_refl.
  cbn [fst snd].
  match goal with
  | |- context [exitPosition cfg w address position reason ?s] =>
      destruct (exitPosition_effect cfg w address position reason s)
        as (_ & _ & [E | E]); rewrite E
  end.
  - apply incl_refl.
  - intros e H. apply In_delete in H. exact H.
Qed.

Lemma checkEach_store cfg w entries :
  forall st,
    incl (positions (snd (checkEach cfg w entries st))) (positions st).
Proof.
  induction entries as [| [address position] rest IH]; intro st.
  - apply incl_refl.
  - cbn [checkEach]. unfold bind at 1. unfold tryCatch.
    pose proof (checkPosition_store cfg w address position st) as I.
    destruct (checkPosition cfg w address position st) as [[u | msg] st1];
      simpl in I |- *;
      (eapply incl_tran; [apply IH | exact I]).
Qed.

(** An evaluation of the store keeps every position it leaves in the
    store as it was. *)
Lemma checkPositions_store cfg w st :
  incl (positions (snd (checkPositions cfg w st))) (positions st).
Proof.
  unfold checkPositions, bind, getPositions. cbn beta iota.
  destruct (positions st) as [| e r] eqn:E; cbn beta iota.
  - simpl. rewrite E. apply incl_refl.
  - rewrite <- E. unfold bind, log. cbn beta iota.
    eapply incl_tran; [apply checkEach_store |]. simpl. apply incl_refl.
Qed.

(** What [checkPosition] does with a position it has a price for: it
    throws when the stop loss rule matches on a stop that is no number,
    and otherwise closes the position with the reason of the last rule
    that matches, if one does. *)
Lemma checkPosition_last_match cfg w address position st pairs found :
  getTokenPairs w (clock st) address = Some pairs ->
  find isBase pairs = Some found ->
  let currentPrice := td_price (tokenDataOf found) in
  let t := dateNow w (S (clock st)) in
  let st2 :=
    snd (log (PositionStatus position currentPrice
                (pnlOf currentPrice position)) (snd (interact st))) in
  checkPosition cfg w address position st =
  if stopLossRule currentPrice position &&
     negb (isNumber (p_stopLoss position))
  then (Throw "TypeError"%string, st2)
  else match lastMatch currentPrice t position with
       | Some reason =>
           exitPosition cfg w address position reason (snd (interact st2))
       | None => (Normal tt, snd (interact st2))
       end.
Proof.
  intros Hp Hf. cbv zeta. rewrite checkPosition_decides.
  unfold getTokenData, bind, interact, ret. cbn beta iota.
  rewrite Hp, Hf. cbv zeta.
  unfold log. cbn [fst snd positions positionsFile tradesLog console clock].
  destruct (p_stopLoss position) as [| | b | sl | s] eqn:Hs;
    try (rewrite (exitDecision_cases _ _ position sl Hs);
         unfold lastMatch; rewrite Hs; cbn [isNumber negb toNumber];
         rewrite andb_false_r;
         destruct (profitRule _ position); [reflexivity |];
         destruct (timeRule _ _ position); [reflexivity |];
         destruct (stopLossRule _ position); reflexivity);
    unfold exitDecision, stopLossCheck, lastMatch, stopLossRule;
    rewrite Hs; cbn [isNumber negb]; rewrite andb_true_r;
    (destruct (leb _ _); [reflexivity |]);
    unfold profitCheck, timeCheck, profitRule, timeRule, noExit;
    (destruct (gtb (pnlOf _ position) (ofZ 50)); [reflexivity |]);
    (destruct (gtb _ maxAge && ltb _ (ofZ 20)); reflexivity).
Qed.

(** A close either fails, and leaves the store, its file and the trade
    log as they were, or takes the entry out, writes the snapshot and
    records itself after the [SWAP] line with its reason. *)
Lemma exitPosition_outcome cfg w address position reason st :
  let st' := snd (exitPosition cfg w address position reason st) in
  framed st st' \/
  (positions st' = delete address (positions st) /\
   synced st' /\
   exists result timestamp trade,
     tradesLog st' =
     tradesLog st ++ [SwapLine result; TradeLine timestamp trade] /\
     t_type trade = "EXIT"%string /\
     t_reason trade = reason).
Proof.
  cbv zeta. rewrite exitPosition_run. unfold exitFill.
  pose proof (swap_effect w address (VStr "USDC")
                (floor (mul (toNumber (p_amount position)) (pow10 6)))
                (dryRun cfg)
                (snd (log (ExitingPosition position reason) st))) as E.
  destruct (Swap.swap w address _ _ _ _) as [[result | msg] st1];
    simpl in E |- *; destruct E as (P & F & T & _).
  - right. rewrite P, T. split; [reflexivity |].
    split; [reflexivity |].
    do 3 eexists. rewrite <- app_assoc. split; [reflexivity |].
    split; reflexivity.
  - left. unfold framed. simpl. rewrite P, F, T, app_nil_r. auto.
Qed.

Lemma closeAttempts_status st position currentPrice pnl :
  closeAttempts
    (console (snd (interact
                     (snd (log (PositionStatus position currentPrice pnl)
                             (snd (interact st)))))))
  = closeAttempts (console st).
Proof. simpl. rewrite closeAttempts_app. simpl. now rewrite app_nil_r. Qed.

Lemma framed_trans a b c : framed a b -> framed b c -> framed a c.
Proof.
  unfold framed. intros (P1 & F1 & T1) (P2 & F2 & T2).
  repeat split; congruence.
Qed.

(** C1, as amended.  A position that is evaluated (a price is had for
    it) is closed with the reason of the last of the three rules that
    matches: the profit taking when the profit exceeds 50; otherwise the
    time exit when the position is older than four hours and the profit is
    under 20, the stop loss rule matching or not; otherwise the stop loss
    when the price is at or under the stop.  The close is begun once with
    that reason, is the close [exitPosition] makes, and when it succeeds
    is recorded with that reason; when no rule matches nothing changes.
    The one exception is a stop that is no number: when the stop loss rule
    matches on it the check throws, and no close is begun. *)
Theorem exit_reason_last_match cfg w address position st pairs found :
  getTokenPairs w (clock st) address = Some pairs ->
  find isBase pairs = Some found ->
  let currentPrice := td_price (tokenDataOf found) in
  let t := dateNow w (S (clock st)) in
  let r := checkPosition cfg w address position st in
  (stopLossRule currentPrice position = true ->
   isNumber (p_stopLoss position) = false ->
   fst r = Throw "TypeError"%string /\
   framed st (snd r) /\
   closeAttempts (console (snd r)) = closeAttempts (console st)) /\
  (stopLossRule currentPrice position = false \/
   isNumber (p_stopLoss position) = true ->
   fst r = Normal tt /\
   (lastMatch currentPrice t position = None ->
    framed st (snd r) /\
    closeAttempts (console (snd r)) = closeAttempts (console st)) /\
   (forall reason,
      lastMatch currentPrice t position = Some reason ->
      closeAttempts (console (snd r)) =
      closeAttempts (console st) ++ [(position, reason)] /\
      (exists st0,
         framed st st0 /\
         r = exitPosition cfg w address position reason st0) /\
      (framed st (snd r) \/
       (positions (snd r) = delete address (positions st) /\
        exists result timestamp trade,
          tradesLog (snd r) =
          tradesLog st ++ [SwapLine result; TradeLine timestamp trade] /\
          t_type trade = "EXIT"%string /\
          t_reason trade = reason)))) /\
  (profitRule currentPrice position = true ->
   lastMatch currentPrice t position =
   Some (ProfitTaking (pnlOf currentPrice position))) /\
  (timeRule currentPrice t position = true ->
   lastMatch currentPrice t position =
   Some (TimeExit (pnlOf currentPrice position))) /\
  (stopLossRule currentPrice position = true ->
   timeRule currentPrice t position = false ->
   profitRule currentPrice position = false ->
   lastMatch currentPrice t position =
   Some (StopLossTriggered (toNumber (p_stopLoss position)))) /\
  (stopLossRule currentPrice position = false ->
   timeRule currentPrice t position = false ->
   profitRule currentPrice position = false ->
   lastMatch currentPrice t position = None).
Proof.
  intros Hp Hf. cbv zeta.
  rewrite (checkPosition_last_match cfg w address position st pairs found
             Hp Hf). cbv zeta.
  set (currentPrice := td_price (tokenDataOf found)).
  set (t := dateNow w (S (clock st))).
  set (st2 := snd (log (PositionStatus position currentPrice
                          (pnlOf currentPrice position)) (snd (interact st)))).
  assert (F2 : framed st st2) by (unfold framed; auto).
  assert (F3 : framed st (snd (interact st2))) by (unfold framed; auto).
  assert (C2 : closeAttempts (console st2) = closeAttempts (console st)).
  { simpl. rewrite closeAttempts_app. simpl. now rewrite app_nil_r. }
  assert (C3 : closeAttempts (console (snd (interact st2)))
               = closeAttempts (console st))
    by apply closeAttempts_status.
  split; [| split; [| split; [| split; [| split]]]].
  - intros S N. rewrite S, N. simpl. auto.
  - intros H.
    assert (B : stopLossRule currentPrice position &&
                negb (isNumber (p_stopLoss position)) = false).
    { destruct H as [H | H]; rewrite H; [reflexivity | apply andb_false_r]. }
    rewrite B. split; [| split].
    + destruct (lastMatch currentPrice t position) as [reason |];
        [| reflexivity].
      apply exitPosition_effect.
    + intros L. rewrite L. auto.
    + intros reason L. rewrite L. split; [| split].
      * destruct (exitPosition_effect cfg w address position reason
                    (snd (interact st2))) as (_ & C & _).
        rewrite C, C3. reflexivity.
      * exists (snd (interact st2)). auto.
      * destruct (exitPosition_outcome cfg w address position reason
                    (snd (interact st2))) as [K | (P & _ & T)].
        -- left. exact (framed_trans _ _ _ F3 K).
        -- right. split; [exact P |]. exact T.
  - unfold lastMatch. now intros ->.
  - unfold lastMatch. intro T.
    now rewrite (time_excludes_profit _ _ _ T), T.
  - unfold lastMatch. now intros -> -> ->.
  - unfold lastMatch. now intros -> -> ->.
Qed.

Lemma exit_reason_last_match_witness :
  closeAttempts
    (console (snd (checkPosition Runs.paper
                     (Runs.market Runs.fiveHours (VStr "0.85"))
                     Runs.heldAddress Runs.held Runs.holding)))
  = [(Runs.held,
      TimeExit (pnlOf (td_price (tokenDataOf (Runs.basePair (VStr "0.85"))))
                  Runs.held))].
Proof.
  exact (proj1 (proj2 (proj2
           (proj1 (proj2
              (exit_reason_last_match Runs.paper
                 (Runs.market Runs.fiveHours (VStr "0.85"))
                 Runs.heldAddress Runs.held Runs.holding
                 [Runs.basePair (VStr "0.85")] (Runs.basePair (VStr "0.85"))
                 eq_refl eq_refl))
              (or_intror eq_refl)))
           (TimeExit (pnlOf (td_price (tokenDataOf
                                         (Runs.basePair (VStr "0.85"))))
                        Runs.held))
           eq_refl)).
Defined.

Lemma eqb_leb (x y : number) : eqb x y = true -> leb x y = true.
Proof.
  destruct x, y; simpl; try discriminate; try reflexivity.
  rewrite Qeq_bool_iff, Qle_bool_iff. intro H. rewrite H. apply Qle_refl.
Qed.

(** A position entered above zero, with a stop loss percentage under
    100, has its stop at or above zero. *)
Lemma stopLossPrice_nonneg cfg entryPrice :
  gtb (toNumber entryPrice) zero = true ->
  ltb (stopLoss cfg) (ofZ 100) = true ->
  leb zero (stopLossPrice cfg entryPrice) = true.
Proof.
  unfold stopLossPrice, gtb, zero, one, ofZ.
  destruct (toNumber entryPrice) as [| | e |]; simpl; try discriminate;
    destruct (stopLoss cfg) as [| | sl |]; simpl; try discriminate;
    try reflexivity.
  - (* a finite price, an infinite percentage *)
    rewrite Qltb_lt. intros He _.
    apply Qgt_alt in He. now rewrite He.
  - (* finite both *)
    rewrite !Qltb_lt. intros He Hsl.
    change (Qeq_bool (inject_Z 100) 0) with false. simpl.
    apply Qle_bool_iff.
    assert (H : 0 <= 1 + - (sl / inject_Z 100)).
    { unfold Qdiv. change (/ inject_Z 100) with (1 # 100).
      unfold inject_Z in Hsl. lra. }
    nra.
  - (* an infinite price *)
    rewrite Qltb_lt. intros _ Hsl.
    change (Qeq_bool (inject_Z 100) 0) with false. simpl.
    assert (H : (1 + - (sl / inject_Z 100) ?= 0) = Gt).
    { apply Qgt_alt. unfold Qdiv. change (/ inject_Z 100) with (1 # 100).
      unfold inject_Z in Hsl. lra. }
    now rewrite H.
Qed.

(** At price zero a position entered above zero shows no profit. *)
Lemma no_profit_at_zero position :
  gtb (toNumber (p_entryPrice position)) zero = true ->
  profitRule zero position = false.
Proof.
  unfold profitRule, pnlOf, gtb, zero, ofZ.
  destruct (toNumber (p_entryPrice position)) as [| | e |]; simpl;
    try discriminate; try reflexivity.
  rewrite Qltb_lt. intro He.
  destruct (Qeq_bool e 0) eqn:Z;
    [apply Qeq_bool_iff in Z; lra |].
  simpl. unfold Qltb. apply negb_false_iff, Qle_bool_iff.
  assert (H : (0 + - e) / e == - (1)) by (field; lra).
  rewrite H. unfold inject_Z. lra.
Qed.

(** C7, as amended.  The stop of a position is
    [entryPrice * (1 - stopLoss / 100)], set when the position is entered;
    evaluating the store changes no position that stays in it; and an
    evaluation at a price equal to the stop meets the stop loss rule and
    begins the close of the position.  The reason of that close is the
    stop loss unless a later rule matches as well: the time exit when the
    position is older than four hours with a profit under 20, the profit
    taking when the profit exceeds 50. *)
Theorem stop_loss_fixed_and_inclusive cfg w :
  (forall token st result st1,
     entryFill cfg w token (snd (log (EnteringPosition token) st))
     = (Normal result, st1) ->
     exists position,
       get (address token) (positions (snd (enterPosition cfg w token st)))
       = Some position /\
       p_entryPrice position = price token /\
       p_stopLoss position = VNum (stopLossPrice cfg (price token))) /\
  (forall st address position,
     In (address, position) (positions (snd (checkPositions cfg w st))) ->
     In (address, position) (positions st)) /\
  (forall st address position pairs found sl,
     getTokenPairs w (clock st) address = Some pairs ->
     find isBase pairs = Some found ->
     p_stopLoss position = VNum sl ->
     eqb (td_price (tokenDataOf found)) sl = true ->
     let currentPrice := td_price (tokenDataOf found) in
     let t := dateNow w (S (clock st)) in
     let r := checkPosition cfg w address position st in
     stopLossRule currentPrice position = true /\
     fst r = Normal tt /\
     closeAttempts (console (snd r)) =
     closeAttempts (console st) ++
     [(position,
       if profitRule currentPrice position
       then ProfitTaking (pnlOf currentPrice position)
       else if timeRule currentPrice t position
       then TimeExit (pnlOf currentPrice position)
       else StopLossTriggered sl)]).
Proof.
  split; [| split].
  - intros token st result st1 H. rewrite enterPosition_run, H. simpl.
    eexists. split; [apply get_set_same |]. split; reflexivity.
  - intros st address position. apply checkPositions_store.
  - intros st address position pairs found sl Hp Hf Hsl Heq. cbv zeta.
    assert (R : stopLossRule (td_price (tokenDataOf found)) position = true).
    { unfold stopLossRule. rewrite Hsl. simpl. now apply eqb_leb. }
    split; [exact R |].
    rewrite (checkPosition_last_match cfg w address position st pairs found
               Hp Hf). cbv zeta.
    unfold lastMatch. rewrite R, Hsl. cbn [isNumber negb toNumber].
    rewrite andb_false_r.
    destruct (profitRule _ position);
      [| destruct (timeRule _ _ position)];
      match goal with
      | |- context [exitPosition cfg w address position ?re ?s0] =>
          destruct (exitPosition_effect cfg w address position re s0)
            as (N & C & _); rewrite C, closeAttempts_status; auto
      end.
Qed.

Lemma stop_loss_fixed_and_inclusive_witness :
  closeAttempts
    (console (snd (checkPosition Runs.paper (Runs.market 0 (VStr "0.9"))
                     Runs.heldAddress Runs.held Runs.holding)))
  = [(Runs.held, StopLossTriggered (Fin (9 # 10)))].
Proof.
  exact (proj2 (proj2
           (proj2 (proj2 (stop_loss_fixed_and_inclusive Runs.paper
                            (Runs.market 0 (VStr "0.9"))))
              Runs.holding Runs.heldAddress Runs.held
              [Runs.basePair (VStr "0.9")] (Runs.basePair (VStr "0.9"))
              (Fin (9 # 10)) eq_refl eq_refl eq_refl eq_refl))).
Defined.

(** C7, as stated, fails: five hours after an entry at 1 whose stop is
    [1 * (1 - 10 / 100)], an evaluation at exactly that price closes the
    position, and the close is recorded with the time exit as its reason,
    not the stop loss. *)
Lemma stop_price_time_exit_counterexample :
  let w := Runs.market Runs.fiveHours (VStr "0.9") in
  let currentPrice := td_price (tokenDataOf (Runs.basePair (VStr "0.9"))) in
  p_stopLoss Runs.entered
  = VNum (stopLossPrice Runs.paper (p_entryPrice Runs.entered)) /\
  eqb currentPrice (stopLossPrice Runs.paper (p_entryPrice Runs.entered))
  = true /\
  recordedRules
    (tradesLog
       (snd (checkPosition Runs.paper w Runs.heldAddress Runs.entered
               Cases.holdingEntered)))
  = [Some Time] /\
  Some Time <> Some StopLoss.
Proof.
  vm_compute. repeat split; discriminate.
Qed.

(** C10, as amended.  When the lookup answers with a base pair whose
    price does not parse, the current price is zero; on a position entered
    above zero whose stop is [entryPrice * (1 - stopLoss / 100)] with a
    percentage under 100, the stop loss rule matches and the close is
    begun.  Its reason is the stop loss, unless the time rule matches as
    well (the position is older than four hours; the profit at price zero
    is under 20), when it is the time exit.  Only a lookup without a base
    pair passes the position over. *)
Theorem unreadable_price_triggers_close cfg w address position st :
  (forall pairs found,
     gtb (toNumber (p_entryPrice position)) zero = true ->
     ltb (stopLoss cfg) (ofZ 100) = true ->
     p_stopLoss position = VNum (stopLossPrice cfg (p_entryPrice position)) ->
     getTokenPairs w (clock st) address = Some pairs ->
     find isBase pairs = Some found ->
     isNaN (parseFloat (pr_priceUsd found)) = true ->
     let st' := snd (checkPosition cfg w address position st) in
     let t := dateNow w (S (clock st)) in
     td_price (tokenDataOf found) = zero /\
     stopLossRule zero position = true /\
     closeAttempts (console st') =
     closeAttempts (console st) ++
     [(position,
       if timeRule zero t position then TimeExit (pnlOf zero position)
       else StopLossTriggered (stopLossPrice cfg (p_entryPrice position)))])
  /\
  ((getTokenPairs w (clock st) address = None \/
    exists pairs, getTokenPairs w (clock st) address = Some pairs /\
                  find isBase pairs = None) ->
   let st' := snd (checkPosition cfg w address position st) in
   positions st' = positions st /\
   closeAttempts (console st') = closeAttempts (console st)).
Proof.
  split.
  - intros pairs found He Hsl Hstop Hp Hf Hn. cbv zeta.
    assert (P0 : td_price (tokenDataOf found) = zero)
      by (unfold tokenDataOf; simpl; now apply orElse_zero_NaN).
    assert (R : stopLossRule zero position = true).
    { unfold stopLossRule. rewrite Hstop. simpl.
      now apply stopLossPrice_nonneg. }
    split; [exact P0 |]. split; [exact R |].
    rewrite checkPosition_decides.
    unfold getTokenData, bind, interact, ret. cbn beta iota.
    rewrite Hp, Hf. cbv zeta. rewrite P0.
    unfold log. cbn [fst snd positions positionsFile tradesLog console clock].
    rewrite (exitDecision_cases zero _ position _ Hstop), R.
    rewrite (no_profit_at_zero position He).
    destruct (timeRule zero (dateNow w (S (clock st))) position);
      cbn [fst snd];
      match goal with
      | |- context [exitPosition cfg w address position ?r ?s] =>
          destruct (exitPosition_effect cfg w address position r s)
            as (_ & C & _); rewrite C
      end;
      simpl; rewrite closeAttempts_app; simpl; now rewrite app_nil_r.
  - intros H. cbv zeta. rewrite checkPosition_decides.
    unfold getTokenData, bind, interact, ret. cbn beta iota.
    destruct H as [H | (pairs & H & F)]; rewrite H; [| rewrite F];
      split; reflexivity.
Qed.

Lemma unreadable_price_triggers_close_witness :
  closeAttempts
    (console (snd (checkPosition Runs.paper (Runs.market 0 (VStr "n/a"))
                     Runs.heldAddress Runs.entered Cases.holdingEntered)))
  = [(Runs.entered,
      StopLossTriggered (stopLossPrice Runs.paper (VNum (Fin 1))))] /\
  closeAttempts
    (console (snd (checkPosition Runs.paper
                     (Runs.market Runs.fiveHours (VStr "n/a"))
                     Runs.heldAddress Runs.entered Cases.holdingEntered)))
  = [(Runs.entered, TimeExit (pnlOf zero Runs.entered))].
Proof.
  split.
  - exact (proj2 (proj2
             (proj1 (unreadable_price_triggers_close Runs.paper
                       (Runs.market 0 (VStr "n/a")) Runs.heldAddress
                       Runs.entered Cases.holdingEntered)
                [Runs.basePair (VStr "n/a")] (Runs.basePair (VStr "n/a"))
                eq_refl eq_refl eq_refl eq_refl eq_refl eq_refl))).
  - exact (proj2 (proj2
             (proj1 (unreadable_price_triggers_close Runs.paper
                       (Runs.market Runs.fiveHours (VStr "n/a"))
                       Runs.heldAddress Runs.entered Cases.holdingEntered)
                [Runs.basePair (VStr "n/a")] (Runs.basePair (VStr "n/a"))
                eq_refl eq_refl eq_refl eq_refl eq_refl eq_refl))).
Defined.

(** C10, as stated, fails: five hours after its entry a position whose
    price does not parse is closed, and the close is recorded with the
    time exit as its reason, not the stop loss. *)
Lemma unreadable_price_time_exit_counterexample :
  let w := Runs.market Runs.fiveHours (VStr "n/a") in
  gtb (toNumber (p_entryPrice Runs.entered)) zero = true /\
  ltb (stopLoss Runs.paper) (ofZ 100) = true /\
  td_price (tokenDataOf (Runs.basePair (VStr "n/a"))) = zero /\
  closeAttempts
    (console (snd (checkPosition Runs.paper w Runs.heldAddress Runs.entered
                     Cases.holdingEntered)))
  = [(Runs.entered, TimeExit (pnlOf zero Runs.entered))] /\
  recordedRules
    (tradesLog
       (snd (checkPosition Runs.paper w Runs.heldAddress Runs.entered
               Cases.holdingEntered)))
  = [Some Time] /\
  Some Time <> Some StopLoss.
Proof.
  vm_compute. repeat split; discriminate.
Qed.

End Evaluate.

(* ================================================================== *)
(** * Persistence *)

Section Persistence.
Import Js Store Monitor Props.

Lemma get_None_keys {V} (k : value) (m : Map V) :
  existsb (fun k' => sameValueZero k' k) (map fst m) = false ->
  get k m = None.
Proof.
  induction m as [| [k' v] r IH]; simpl; [reflexivity |].
  destruct (sameValueZero k' k); simpl; [discriminate | exact IH].
Qed.

(** The key that follows a part of a map with distinct keys is not in
    that part. *)
Lemma distinct_next_fresh (l1 : Map Position) k p r :
  distinctKeys (map fst (l1 ++ (k, p) :: r)) -> get k l1 = None.
Proof.
  induction l1 as [| [k1 p1] l1 IH]; simpl; [reflexivity |].
  intros [H D]. rewrite map_app, existsb_app in H. simpl in H.
  apply orb_false_iff in H as [_ H]. apply orb_false_iff in H as [H _].
  rewrite H. now apply IH.
Qed.

(** Reading back the entries of a map, one by one, rebuilds it. *)
Lemma reload_entries (l2 : Map Position) :
  forall l1,
    distinctKeys (map fst (l1 ++ l2)) ->
    (forall k p, In (k, p) l2 -> p_address p = k) ->
    fold_left (fun m pos => set (p_address pos) pos m) (map snd l2) l1
    = l1 ++ l2.
Proof.
  induction l2 as [| [k p] r IH]; intros l1 D A; simpl.
  - now rewrite app_nil_r.
  - rewrite (A k p (or_introl eq_refl)).
    rewrite (set_fresh k p l1 (distinct_next_fresh l1 k p r D)).
    rewrite IH.
    + now rewrite <- app_assoc.
    + now rewrite <- app_assoc.
    + intros k' p' H. apply A. now right.
Qed.

(** A snapshot of positions that are stored under their own address and
    have a JSON form is the list of the positions. *)
Lemma snapshot_safe (ps : Map Position) :
  (forall k p, In (k, p) ps -> p_address p = k) ->
  jsonSafe ps -> snapshot ps = map snd ps.
Proof.
  unfold jsonSafe, snapshot. intros A J. apply map_ext_in.
  intros [k p] H. simpl.
  assert (W : withAddress k p = p).
  { pose proof (A k p H) as E.
    destruct p as [tok adr ? ? ? ? ? ?]; simpl in E. subst k.
    unfold withAddress; simpl. now destruct adr. }
  rewrite W. exact (J k p H).
Qed.

Lemma set_keys_In (k : value) (p : Position) (m : Map Position) :
  forall x, In x (map fst (set k p m)) -> In x (map fst m) \/ x = k.
Proof.
  induction m as [| [k' p'] r IH]; simpl; intros x H.
  - destruct H as [<- | []]. now right.
  - destruct (sameValueZero k' k); simpl in H |- *.
    + now left.
    + destruct H as [<- | H]; [now left; left |].
      destruct (IH x H) as [H' | ->]; auto.
Qed.

Lemma set_distinct (k : value) (p : Position) (m : Map Position) :
  distinctKeys (map fst m) -> distinctKeys (map fst (set k p m)).
Proof.
  induction m as [| [k' p'] r IH]; simpl; [auto |].
  intros [H D]. destruct (sameValueZero k' k) eqn:E; simpl.
  - split; assumption.
  - split; [| now apply IH].
    apply existsb_false_In. intros x Hx.
    destruct (set_keys_In k p r x Hx) as [Hr | ->]; [| exact E].
    rewrite existsb_false_In in H. now apply H.
Qed.

Lemma delete_keys_In (k : value) (m : Map Position) :
  forall x, In x (map fst (delete k m)) -> In x (map fst m).
Proof.
  induction m as [| [k' p'] r IH]; simpl; intros x H; [exact H |].
  destruct (sameValueZero k' k); simpl in H; [now right |].
  destruct H as [<- | H]; [now left | right; now apply IH].
Qed.

Lemma delete_distinct (k : value) (m : Map Position) :
  distinctKeys (map fst m) -> distinctKeys (map fst (delete k m)).
Proof.
  induction m as [| [k' p'] r IH]; simpl; [auto |].
  intros [H D]. destruct (sameValueZero k' k); simpl; [exact D |].
  split; [| now apply IH].
  apply existsb_false_In. intros x Hx.
  rewrite existsb_false_In in H. apply H. now apply delete_keys_In in Hx.
Qed.

Lemma set_In (k : value) (p : Position) (m : Map Position) :
  forall k' p', In (k', p') (set k p m) ->
                In (k', p') m \/ (p' = p /\ sameValueZero k' k = true).
Proof.
  induction m as [| [k1 p1] r IH]; simpl; intros k' p' H.
  - destruct H as [[= <- <-] | []]. right. split; [reflexivity |].
    apply sameValueZero_refl.
  - destruct (sameValueZero k1 k) eqn:E; simpl in H.
    + destruct H as [[= <- <-] | H]; [right; auto | left; now right].
    + destruct H as [H | H]; [left; now left |].
      destruct (IH k' p' H) as [H' | H']; auto.
Qed.

Lemma sameValueZero_string (k : value) (s : string) :
  sameValueZero k (VStr s) = true -> k = VStr s.
Proof.
  destruct k; simpl; try discriminate.
  intro H. apply String.eqb_eq in H. now subst.
Qed.

(** The store keeps its shape through an open (addresses are strings)
    and through a close. *)
Lemma enterPosition_invariant cfg w token s st :
  address token = VStr s ->
  storeInvariant (positions st) ->
  storeInvariant (positions (snd (enterPosition cfg w token st))).
Proof.
  intros Ha [D A]. rewrite enterPosition_run.
  destruct (entryFill_effect cfg w token
              (snd (log (EnteringPosition token) st))) as (P & _).
  destruct (entryFill cfg w token _) as [[result | msg] st1];
    simpl in P |- *; rewrite P; [| now split].
  split; [now apply set_distinct |].
  intros k p H. apply set_In in H as [H | [-> H]]; [now apply A |].
  rewrite Ha in H. apply sameValueZero_string in H. subst k.
  simpl. exact Ha.
Qed.

Lemma exitPosition_invariant cfg w address position reason st :
  storeInvariant (positions st) ->
  storeInvariant
    (positions (snd (exitPosition cfg w address position reason st))).
Proof.
  intros [D A].
  destruct (exitPosition_effect cfg w address position reason st)
    as (_ & _ & [E | E]); rewrite E; [now split |].
  split; [now apply delete_distinct |].
  intros k p H. apply A. now apply In_delete in H.
Qed.

(** C8, as amended.  A store in which every position is under its own
    address, as the monitor builds it, and holds only values that have a
    JSON form is read back from its snapshot as it was: the same
    addresses in the same order, each with the same position. *)
Theorem snapshot_round_trip st :
  storeInvariant (positions st) -> jsonSafe (positions st) ->
  reloaded st = positions st.
Proof.
  intros [D A] J.
  unfold reloaded, savePositions, loadPositions, restart,
    bind, getPositions, writePositionsFile, setPositions, log.
  cbn beta iota.
  cbn [fst snd positions positionsFile tradesLog console clock].
  rewrite (snapshot_safe (positions st) A J).
  exact (reload_entries (positions st) [] D A).
Qed.

Lemma snapshot_round_trip_witness :
  reloaded Runs.crowded = positions Runs.crowded.
Proof.
  apply snapshot_round_trip.
  - split; [vm_compute; auto |].
    intros k p H. simpl in H.
    repeat (destruct H as [H | H]; [now inversion H |]). contradiction.
  - intros k p H. simpl in H.
    repeat (destruct H as [H | H]; [now inversion H |]). contradiction.
Defined.

(** C8, as stated, fails: a live entry on a quote without [outAmount]
    stores the amount [NaN], which the snapshot holds as [null]. *)
Lemma snapshot_round_trip_counterexample :
  let st := snd (enterPosition Runs.defaults Runs.blankQuotes Runs.fooAtHeld
                   Runs.emptyState) in
  map (fun e => p_amount (snd e)) (positions st) = [VNum NaN] /\
  map (fun e => p_amount (snd e)) (reloaded st) = [VNull] /\
  reloaded st <> positions st.
Proof.
  vm_compute. repeat split. discriminate.
Qed.

End Persistence.

(* ================================================================== *)
(** * The candidates of the feed *)

Section Normalizer.
Import Js Store Monitor Props.

(** What the filter on [seen] keeps: pairs whose address is not in
    [seen], no two with the same address. *)
Lemma dedup_distinct (l : list Pair) :
  forall seen,
    distinctKeys (map pr_pairAddress (dedup seen l)) /\
    forall p, In p (dedup seen l) ->
              existsb (sameValueZero (pr_pairAddress p)) seen = false.
Proof.
  induction l as [| p r IH]; intro seen; simpl; [split; [exact I | tauto] |].
  destruct (existsb (sameValueZero (pr_pairAddress p)) seen) eqn:E.
  - apply IH.
  - destruct (IH (pr_pairAddress p :: seen)) as [D F]. split.
    + simpl. split; [| exact D].
      apply existsb_false_In. intros k Hk.
      apply in_map_iff in Hk as (q & <- & Hq).
      specialize (F q Hq). simpl in F.
      apply orb_false_iff in F as [F _].
      now rewrite sameValueZero_sym.
    + intros q [<- | Hq]; [exact E |].
      specialize (F q Hq). simpl in F.
      now apply orb_false_iff in F as [_ F].
Qed.

(** The first occurrence wins: a pair that is kept has no pair with its
    address before it. *)
Lemma dedup_first (l : list Pair) :
  forall seen p,
    In p (dedup seen l) ->
    exists l1 l2,
      l = l1 ++ p :: l2 /\
      existsb (sameValueZero (pr_pairAddress p)) (map pr_pairAddress l1)
      = false.
Proof.
  induction l as [| q r IH]; intros seen p H; simpl in H; [contradiction |].
  destruct (existsb (sameValueZero (pr_pairAddress q)) seen) eqn:E.
  - destruct (dedup_distinct r seen) as [_ F].
    destruct (IH seen p H) as (l1 & l2 & -> & N).
    exists (q :: l1), l2. split; [reflexivity |]. simpl.
    rewrite N, orb_false_r.
    destruct (sameValueZero (pr_pairAddress p) (pr_pairAddress q)) eqn:S;
      [| reflexivity].
    (* p has the address of q, which is in seen: p was not kept *)
    exfalso. specialize (F p H).
    assert (T : existsb (sameValueZero (pr_pairAddress p)) seen = true).
    { apply existsb_exists in E as (k & Hk & Sk).
      apply existsb_exists. exists k. split; [exact Hk |].
      exact (sameValueZero_trans _ _ _ S Sk). }
    congruence.
  - destruct H as [<- | H].
    + exists [], r. split; reflexivity.
    + destruct (dedup_distinct r (pr_pairAddress q :: seen)) as [_ F].
      destruct (IH _ p H) as (l1 & l2 & -> & N).
      exists (q :: l1), l2. split; [reflexivity |]. simpl.
      rewrite N, orb_false_r.
      specialize (F p H). simpl in F.
      now apply orb_false_iff in F as [F _].
Qed.

Lemma distinctKeys_filter {A} (key : A -> value) (g : A -> bool) (l : list A) :
  distinctKeys (map key l) -> distinctKeys (map key (filter g l)).
Proof.
  induction l as [| a r IH]; simpl; [auto |].
  intros [H D]. destruct (g a); simpl; [| now apply IH].
  split; [| now apply IH].
  apply existsb_false_In. intros k Hk.
  apply in_map_iff in Hk as (b & <- & Hb). apply filter_In in Hb as [Hb _].
  rewrite existsb_false_In in H. apply H. now apply in_map.
Qed.

Lemma mapC_In {A B} (f : A -> Completion B) (l : list A) :
  forall r b, mapC f l = Normal r -> In b r ->
              exists a, In a l /\ f a = Normal b.
Proof.
  induction l as [| a l IH]; simpl; intros r b H Hb.
  - injection H as <-. contradiction.
  - destruct (f a) as [b' |] eqn:Fa; [| discriminate].
    destruct (mapC f l) as [bs |]; [| discriminate].
    injection H as <-. destruct Hb as [<- | Hb].
    + exists a. auto.
    + destruct (IH bs b eq_refl Hb) as (a' & Ha & E). exists a'. auto.
Qed.

Lemma toToken_pairAddress pair token :
  toToken pair = Normal token -> pairAddress token = pr_pairAddress pair.
Proof.
  unfold toToken. destruct (pr_baseToken pair); [| discriminate].
  now intros [= <-].
Qed.

Lemma mapC_pairAddress (l : list Pair) :
  forall r, mapC toToken l = Normal r ->
            map pairAddress r = map pr_pairAddress l.
Proof.
  induction l as [| a l IH]; simpl; intros r H.
  - now injection H as <-.
  - destruct (toToken a) as [t |] eqn:T; [| discriminate].
    destruct (mapC toToken l) as [ts |]; [| discriminate].
    injection H as <-. simpl.
    now rewrite (toToken_pairAddress a t T), (IH ts eq_refl).
Qed.

(** The feed, in terms of the pairs it selects. *)
Lemma feed_run w cfg st :
  feed w cfg st =
  match mapC toToken (filter isBase (selectedPairs w cfg st)) with
  | Normal tokens => filter keepToken tokens
  | Throw _ => []
  end.
Proof.
  unfold feed, selectedPairs, mergedPairs, fallbackTaken, trendingPairs,
    getTrendingTokens.
  unfold bind, interact, ret. cbn beta iota. cbn [fst snd].
  destruct ((List.length _ =? 0)%nat || negb (existsb isBase _)).
  - match goal with
    | |- context [fetchPopular w cfg ?t ?p ?s] =>
        destruct (fetchPopular_quiet w cfg t p s) as (l & E & _);
        destruct (fetchPopular w cfg t p s) as [r st1]
    end.
    simpl in E. subst r. cbn beta iota. cbn [fst snd].
    destruct (dedup [] l) as [| p r]; [reflexivity |].
    destruct (mapC toToken (filter isBase (p :: r))); reflexivity.
  - destruct (match getTrending w (clock st) with
              | Some l => l
              | None => []
              end) as [| p r]; [reflexivity |].
    destruct (mapC toToken (filter isBase (p :: r))); reflexivity.
Qed.

(** The first occurrence is kept: for every pair, the first pair of the
    list with its address is kept, unless that address was seen before. *)
Lemma dedup_keeps_first (l : list Pair) :
  forall seen p,
    In p l ->
    existsb (sameValueZero (pr_pairAddress p)) seen = false ->
    exists q,
      find (fun x => sameValueZero (pr_pairAddress x) (pr_pairAddress p)) l
      = Some q /\
      In q (dedup seen l).
Proof.
  induction l as [| a r IH]; intros seen p Hp Hs; [contradiction |].
  simpl.
  destruct (sameValueZero (pr_pairAddress a) (pr_pairAddress p)) eqn:E.
  - exists a. split; [reflexivity |].
    destruct (existsb (sameValueZero (pr_pairAddress a)) seen) eqn:Ea;
      [| now left].
    exfalso.
    apply existsb_exists in Ea as (k & Hk & Sk).
    rewrite existsb_false_In in Hs. specialize (Hs k Hk).
    rewrite sameValueZero_sym in E.
    now rewrite (sameValueZero_trans _ _ _ E Sk) in Hs.
  - destruct Hp as [-> | Hp];
      [now rewrite sameValueZero_refl in E |].
    destruct (existsb (sameValueZero (pr_pairAddress a)) seen).
    + exact (IH seen p Hp Hs).
    + destruct (IH (pr_pairAddress a :: seen) p Hp) as (q & F & Hq).
      { simpl. rewrite Hs, orb_false_r.
        now rewrite sameValueZero_sym. }
      exists q. split; [exact F | now right].
Qed.

(** C9, as amended.  The tokens of the feed are those built from the base
    pairs among the pairs selected, in their order, less those without a
    price above zero, a volume above zero, a symbol or an address.  When
    the fallback is taken the pairs selected are the pairs fetched filtered
    on their pair address, the first occurrence kept: every pair selected
    has no pair with its address before it, for every pair fetched the
    first pair with its address is selected, and no two tokens have the
    same pair address.  Otherwise the pairs selected are the trending
    answer as it is, duplicates included. *)
Theorem normalizer_output w cfg st :
  (forall t, In t (feed w cfg st) ->
     keepToken t = true /\
     exists pair, In pair (selectedPairs w cfg st) /\
                  isBase pair = true /\ toToken pair = Normal t) /\
  (fallbackTaken w st = true ->
   distinctKeys (map pairAddress (feed w cfg st)) /\
   forall p, In p (selectedPairs w cfg st) ->
     exists l1 l2,
       mergedPairs w cfg st = l1 ++ p :: l2 /\
       existsb (sameValueZero (pr_pairAddress p)) (map pr_pairAddress l1)
       = false) /\
  (fallbackTaken w st = false ->
   forall tokens,
     mapC toToken (filter isBase (trendingPairs w st)) = Normal tokens ->
     feed w cfg st = filter keepToken tokens) /\
  (fallbackTaken w st = true ->
   forall p, In p (mergedPairs w cfg st) ->
     exists q,
       find (fun x => sameValueZero (pr_pairAddress x) (pr_pairAddress p))
            (mergedPairs w cfg st) = Some q /\
       In q (selectedPairs w cfg st)) /\
  (forall tokens,
     mapC toToken (filter isBase (selectedPairs w cfg st)) = Normal tokens ->
     feed w cfg st = filter keepToken tokens) /\
  (fallbackTaken w st = false ->
   selectedPairs w cfg st = trendingPairs w st).
Proof.
  rewrite feed_run. split; [| split; [| split; [| split; [| split]]]].
  - intros t Ht.
    destruct (mapC toToken (filter isBase (selectedPairs w cfg st)))
      as [tokens |] eqn:M; [| contradiction].
    apply filter_In in Ht as [Ht K]. split; [exact K |].
    destruct (mapC_In _ _ _ _ M Ht) as (pair & Hp & E).
    apply filter_In in Hp as [Hp B]. exists pair. auto.
  - intro F. unfold selectedPairs. rewrite F. split.
    + destruct (mapC toToken (filter isBase (dedup [] (mergedPairs w cfg st))))
        as [tokens |] eqn:M; [| exact I].
      apply distinctKeys_filter.
      rewrite (mapC_pairAddress _ _ M).
      apply distinctKeys_filter.
      apply (dedup_distinct (mergedPairs w cfg st) []).
    + intros p Hp. exact (dedup_first _ [] p Hp).
  - intros F tokens M. unfold selectedPairs. rewrite F, M. reflexivity.
  - intros F p Hp. unfold selectedPairs. rewrite F.
    exact (dedup_keeps_first _ [] p Hp eq_refl).
  - intros tokens M. now rewrite M.
  - intros F. unfold selectedPairs. now rewrite F.
Qed.

Lemma normalizer_output_witness :
  distinctKeys (map pairAddress (feed Runs.fallback Runs.defaults
                                   Runs.emptyState)) /\
  feed Runs.doubled Runs.defaults Runs.emptyState =
  [Runs.listed; Runs.listed] /\
  In (Runs.basePair (VStr "1.00"))
     (selectedPairs Runs.fallback Runs.defaults Runs.emptyState) /\
  feed Runs.fallback Runs.defaults Runs.emptyState = [Runs.listed].
Proof.
  split; [| split; [| split]].
  - exact (proj1 (proj1 (proj2 (normalizer_output Runs.fallback Runs.defaults
                                  Runs.emptyState)) eq_refl)).
  - exact (proj1 (proj2 (proj2 (normalizer_output Runs.doubled Runs.defaults
                                  Runs.emptyState))) eq_refl
             [Runs.listed; Runs.listed] eq_refl).
  - destruct (proj1 (proj2 (proj2 (proj2
                (normalizer_output Runs.fallback Runs.defaults
                   Runs.emptyState)))) eq_refl
                (Runs.basePair (VStr "1.00")) (or_introl eq_refl))
      as (q & F & Hq).
    injection F as <-. exact Hq.
  - exact (proj1 (proj2 (proj2 (proj2 (proj2
             (normalizer_output Runs.fallback Runs.defaults
                Runs.emptyState)))))
             [Runs.listed] eq_refl).
Defined.

(** C9, as stated, fails: a trending answer that lists a base pair twice
    yields two tokens with the one pair address. *)
Lemma duplicate_pairs_counterexample :
  map pairAddress (feed Runs.doubled Runs.defaults Runs.emptyState)
  = [VStr "0xP"; VStr "0xP"] /\
  ~ distinctKeys (map pairAddress (feed Runs.doubled Runs.defaults
                                     Runs.emptyState)).
Proof.
  split; [vm_compute; reflexivity |].
  vm_compute. intros [H _]. discriminate.
Qed.

End Normalizer.

(* ================================================================== *)
(** * The swap helper: what it resolves, what a dry run leaves out *)

Section Resolving.
Import Js Store Monitor Props Upkeep.

Ltac run :=
  unfold Swap.swap, Swap.getQuote, Swap.executeSwap, Swap.logTrade,
    entryFill, exitFill, savePositions, logTrade,
    bind, tryCatch, lift, ret, throw, log, interact, now, appendTrade,
    setPositions, writePositionsFile, getPositions; simpl.

Lemma toUpperCase_length (s : string) :
  String.length (toUpperCase s) = String.length s.
Proof.
  unfold toUpperCase. induction s as [| c r IH]; simpl; congruence.
Qed.

Lemma tokenMints_short (sym mint : string) :
  Swap.tokenMints sym = Some mint -> (String.length sym <= 4)%nat.
Proof.
  unfold Swap.tokenMints.
  repeat match goal with
         | |- context [String.eqb sym ?k] =>
             destruct (String.eqb_spec sym k) as [-> | _]; [simpl; lia |]
         end.
  discriminate.
Qed.

(** A string that is neither 44 characters long nor short enough for a
    symbol of the table has no mint. *)
Lemma long_string_unresolved (s : string) :
  String.length s <> 44%nat -> (4 < String.length s)%nat ->
  resolves (VStr s) = false.
Proof.
  intros L44 L4. unfold resolves, Swap.getMintAddress.
  destruct (Nat.eqb_spec (String.length s) 44) as [E | _]; [contradiction |].
  simpl. destruct (Swap.tokenMints (toUpperCase s)) as [mint |] eqn:T;
    [| reflexivity].
  apply tokenMints_short in T. rewrite toUpperCase_length in T. lia.
Qed.

(** A swap on a token without a mint throws after reading the time, with
    no request made: one interaction, nothing appended to the trade log,
    the store as it was. *)
Lemma swap_unresolved w inputToken outputToken amount dry st :
  resolves inputToken = false \/ resolves outputToken = false ->
  exists msg,
    fst (Swap.swap w inputToken outputToken amount dry st) = Throw msg /\
    clock (snd (Swap.swap w inputToken outputToken amount dry st))
    = S (clock st) /\
    tradesLog (snd (Swap.swap w inputToken outputToken amount dry st))
    = tradesLog st /\
    positions (snd (Swap.swap w inputToken outputToken amount dry st))
    = positions st /\
    positionsFile (snd (Swap.swap w inputToken outputToken amount dry st))
    = positionsFile st.
Proof.
  unfold resolves. intro H. run.
  destruct (Swap.getMintAddress inputToken) as [im | m1]; simpl.
  - destruct H as [H | H]; [discriminate |].
    destruct (Swap.getMintAddress outputToken) as [om | m2];
      [discriminate |].
    simpl. eexists; repeat split.
  - eexists; repeat split.
Qed.

(** A position whose address the helper does not resolve is never
    closed: every exit fails before a request is made and leaves the
    store, its file and the trade log as they were, in a dry run as in
    live mode; likewise a live entry.  No string longer than four
    characters and not of 44 resolves, so no address of the Base chain
    (42 characters) does, and no value that is not a string. *)
Theorem unresolved_address_never_trades cfg w st :
  (forall address position reason,
     resolves address = false ->
     let st' := snd (exitPosition cfg w address position reason st) in
     positions st' = positions st /\
     positionsFile st' = positionsFile st /\
     tradesLog st' = tradesLog st /\
     clock st' = S (clock st)) /\
  (forall token,
     dryRun cfg = false ->
     resolves (address token) = false ->
     let st' := snd (enterPosition cfg w token st) in
     positions st' = positions st /\
     positionsFile st' = positionsFile st /\
     tradesLog st' = tradesLog st /\
     clock st' = S (clock st)) /\
  (forall s, String.length s <> 44%nat -> (4 < String.length s)%nat ->
             resolves (VStr s) = false) /\
  (forall v, (forall s, v <> VStr s) -> resolves v = false).
Proof.
  split; [| split; [| split]].
  - intros address position reason R. cbv zeta.
    rewrite exitPosition_run. unfold exitFill.
    destruct (swap_unresolved w address (VStr "USDC")
                (floor (mul (toNumber (p_amount position)) (pow10 6)))
                (dryRun cfg)
                (snd (log (ExitingPosition position reason) st))
                (or_introl R)) as (msg & F & C & T & P & Pf).
    destruct (Swap.swap w address _ _ _ _) as [r st1].
    simpl in F, C, T, P, Pf. subst r. simpl. auto.
  - intros token D R. cbv zeta.
    rewrite enterPosition_run. unfold entryFill. rewrite D.
    destruct (swap_unresolved w (VStr "USDC") (address token)
                (mul (positionSize cfg) (pow10 6)) false
                (snd (log (EnteringPosition token) st))
                (or_intror R)) as (msg & F & C & T & P & Pf).
    destruct (Swap.swap w _ (address token) _ _ _) as [r st1].
    simpl in F, C, T, P, Pf. subst r. simpl. auto.
  - exact long_string_unresolved.
  - intros v H. destruct v; try reflexivity.
    exfalso. exact (H s eq_refl).
Qed.

Lemma unresolved_address_never_trades_witness :
  positions (snd (exitPosition Runs.paper
                    (Runs.market Runs.fiveHours (VStr "0.85"))
                    Cases.baseAddress Cases.heldOnBase NoReason
                    Cases.holdingOnBase))
  = positions Cases.holdingOnBase.
Proof.
  refine (proj1 (proj1 (unresolved_address_never_trades Runs.paper
                   (Runs.market Runs.fiveHours (VStr "0.85"))
                   Cases.holdingOnBase)
            Cases.baseAddress Cases.heldOnBase NoReason _)).
  apply (proj1 (proj2 (proj2 (unresolved_address_never_trades Runs.paper
                   (Runs.market Runs.fiveHours (VStr "0.85"))
                   Cases.holdingOnBase)))).
  - vm_compute. discriminate.
  - vm_compute. lia.
Defined.

Lemma prefix_app (p s : string) : prefix p (p ++ s) = true.
Proof.
  induction p as [| c r IH]; simpl; [now destruct s |].
  destruct (Ascii.ascii_dec c c) as [_ | N]; [exact IH | contradiction].
Qed.

(** In a dry run the helper sends no transaction: two worlds that tell the
    same time and answer quotes alike give the same swap, whatever their
    swap endpoints do; and the signature of a dry swap is marked as
    such. *)
Theorem dry_swap_sends_nothing w w' inputToken outputToken amount st :
  sameClock w w' -> sameQuotes w w' ->
  Swap.swap w inputToken outputToken amount true st
  = Swap.swap w' inputToken outputToken amount true st /\
  forall result st',
    Swap.swap w inputToken outputToken amount true st = (Normal result, st')
    -> prefix "DRY_RUN_TX_" (r_signature result) = true /\
       r_dryRun result = true.
Proof.
  intros C Q. run. rewrite <- ?C.
  destruct (Swap.getMintAddress inputToken) as [im |]; simpl;
    [| split; [reflexivity | discriminate]].
  destruct (Swap.getMintAddress outputToken) as [om |]; simpl;
    [| split; [reflexivity | discriminate]].
  rewrite <- Q.
  destruct (getQuoteData w _ im om amount) as [q |]; simpl;
    [| split; [reflexivity | discriminate]].
  rewrite <- ?C. split; [reflexivity |].
  intros result st' [= <- _]. cbn [r_signature r_dryRun].
  split; [| reflexivity].
  exact (prefix_app "DRY_RUN_TX_" _).
Qed.

Lemma dry_swap_sends_nothing_witness :
  Swap.swap (Runs.market 0 (VStr "1.00")) Runs.heldAddress (VStr "USDC")
    (Fin 1) true Runs.emptyState
  = Swap.swap (Cases.noSending 0 (VStr "1.00")) Runs.heldAddress
      (VStr "USDC") (Fin 1) true Runs.emptyState.
Proof.
  refine (proj1 (dry_swap_sends_nothing _ _ _ _ _ _ _ _));
    intro; intros; reflexivity.
Defined.

End Resolving.

(* ================================================================== *)
(** * Opening and closing *)

Section Lifecycle.
Import Js Store Monitor Props Upkeep.

Ltac run :=
  unfold Swap.swap, Swap.getQuote, Swap.executeSwap, Swap.logTrade,
    entryFill, exitFill, savePositions, logTrade,
    bind, tryCatch, lift, ret, throw, log, interact, now, appendTrade,
    setPositions, writePositionsFile, getPositions; simpl.

(** In a map with distinct keys a deleted key is gone. *)
Lemma get_delete_same {V} (k : value) (m : Map V) :
  distinctKeys (map fst m) -> get k (delete k m) = None.
Proof.
  induction m as [| [k1 v1] r IH]; simpl; [reflexivity |].
  intros [H D]. destruct (sameValueZero k1 k) eqn:E.
  - apply get_None_keys. apply existsb_false_In. intros k2 H2.
    rewrite existsb_false_In in H. specialize (H k2 H2).
    destruct (sameValueZero k2 k) eqn:E2; [| reflexivity].
    rewrite sameValueZero_sym in E2.
    now rewrite (sameValueZero_trans k1 k k2 E E2) in H.
  - simpl. rewrite E. now apply IH.
Qed.

(** The filter says yes only without a position at the address. *)
Lemma isGoodOpportunity_true_free cfg ps token :
  isGoodOpportunity cfg ps token = Normal true ->
  has (address token) ps = false.
Proof.
  unfold isGoodOpportunity.
  destruct (has (address token) ps); [| reflexivity].
  destruct (symbol token);
    repeat match goal with
           | |- context [if ?b then _ else _] => destruct b
           end; discriminate.
Qed.

(** The filter looks at the store only through the address of the
    token. *)
Lemma isGoodOpportunity_has cfg ps ps' token :
  has (address token) ps = has (address token) ps' ->
  isGoodOpportunity cfg ps token = isGoodOpportunity cfg ps' token.
Proof. unfold isGoodOpportunity. now intros ->. Qed.

(** A dry run always opens: the entry cannot fail, asks nothing of the
    network (worlds that tell the same time give the same entry), and
    stores under the address of the token a position with the price of
    the token, the position size as the capital, the amount the size
    buys at that price when the price is above zero, and the signature
    [DRY_RUN]; the snapshot is written and the trade log is left alone. *)
Theorem dry_run_open_always_records cfg w token st :
  dryRun cfg = true ->
  let st' := snd (enterPosition cfg w token st) in
  (exists position,
     positions st' = set (address token) position (positions st) /\
     get (address token) (positions st') = Some position /\
     p_entryPrice position = price token /\
     p_usdcInvested position = VNum (positionSize cfg) /\
     p_amount position =
     VNum (if gtb (toNumber (price token)) zero
           then div (positionSize cfg) (toNumber (price token))
           else positionSize cfg) /\
     p_signature position = VStr "DRY_RUN" /\
     p_entryTime position = ofZ (dateNow w (S (clock st)))) /\
  synced st' /\
  tradesLog st' = tradesLog st /\
  (forall w', sameClock w w' ->
              enterPosition cfg w' token st = enterPosition cfg w token st).
Proof.
  intro D. cbv zeta. split; [| split; [| split]].
  - rewrite enterPosition_run. unfold entryFill. rewrite D. run.
    eexists. split; [reflexivity |]. split; [apply get_set_same |].
    repeat split.
  - rewrite enterPosition_run. unfold entryFill. rewrite D. run.
    reflexivity.
  - rewrite enterPosition_run. unfold entryFill. rewrite D. run.
    reflexivity.
  - intros w' C. rewrite !enterPosition_run. unfold entryFill.
    rewrite D. run. now rewrite !C.
Qed.

Lemma dry_run_open_always_records_witness :
  tradesLog (snd (enterPosition Runs.paper (Runs.silent 0) Runs.foo
                    Runs.emptyState)) = [] /\
  enterPosition Runs.paper (Runs.market 0 (VStr "1.00")) Runs.foo
    Runs.emptyState
  = enterPosition Runs.paper (Cases.noSending 0 (VStr "1.00")) Runs.foo
      Runs.emptyState.
Proof.
  split.
  - exact (proj1 (proj2 (proj2 (dry_run_open_always_records Runs.paper
                                  (Runs.silent 0) Runs.foo Runs.emptyState
                                  eq_refl)))).
  - refine (proj2 (proj2 (proj2 (dry_run_open_always_records Runs.paper
                                   (Cases.noSending 0 (VStr "1.00"))
                                   Runs.foo Runs.emptyState eq_refl))) _ _).
    intro n. reflexivity.
Defined.

(** A close whose execution succeeds takes the entry of the address out
    of the store, writes the snapshot, and appends to the trade log the
    [SWAP] line of the execution followed by one [EXIT] line that carries
    the reason of the close, the signature of the execution, and as its
    profit the amount received less the capital; in a store with distinct
    keys the address is then free. *)
Theorem successful_close_is_recorded cfg w address position reason st
  result st1 :
  exitFill cfg w address position
    (snd (log (ExitingPosition position reason) st)) = (Normal result, st1) ->
  let st' := snd (exitPosition cfg w address position reason st) in
  positions st' = delete address (positions st) /\
  synced st' /\
  (exists timestamp trade,
     tradesLog st' =
     tradesLog st ++ [SwapLine result; TradeLine timestamp trade] /\
     t_type trade = "EXIT"%string /\
     t_reason trade = reason /\
     t_signature trade = r_signature result /\
     t_finalValue trade = r_outputAmount result /\
     t_pnl trade =
     sub (r_outputAmount result) (toNumber (p_usdcInvested position))) /\
  (distinctKeys (map fst (positions st)) ->
   has address (positions st') = false).
Proof.
  intro H. cbv zeta. rewrite exitPosition_run, H.
  unfold exitFill in H.
  pose proof (swap_effect w address (VStr "USDC")
                (floor (mul (toNumber (p_amount position)) (pow10 6)))
                (dryRun cfg)
                (snd (log (ExitingPosition position reason) st))) as E.
  rewrite H in E. simpl in E. destruct E as (P & _ & T & _).
  simpl. rewrite P, T. split; [reflexivity |]. split; [reflexivity |].
  split.
  - do 2 eexists. rewrite <- app_assoc. split; [reflexivity |].
    repeat split.
  - intro D. unfold has. now rewrite get_delete_same.
Qed.

Lemma successful_close_is_recorded_witness :
  positions (snd (exitPosition Runs.paper
                    (Runs.market Runs.fiveHours (VStr "0.85"))
                    Runs.heldAddress Runs.held NoReason Runs.holding))
  = [].
Proof.
  exact (proj1 (successful_close_is_recorded Runs.paper
                  (Runs.market Runs.fiveHours (VStr "0.85"))
                  Runs.heldAddress Runs.held NoReason Runs.holding
                  _ _ eq_refl)).
Defined.

(** An address that was opened is refused by the filter, whatever the
    token and the configuration, until it is closed; and once it is
    closed (in a store with distinct keys) the filter answers for it as
    it does on an empty store. *)
Theorem open_blocks_and_close_releases cfg w st :
  (forall token result st1,
     entryFill cfg w token (snd (log (EnteringPosition token) st))
     = (Normal result, st1) ->
     forall cfg' token',
       address token' = address token ->
       isGoodOpportunity cfg'
         (positions (snd (enterPosition cfg w token st))) token'
       <> Normal true) /\
  (forall address position reason result st1,
     exitFill cfg w address position
       (snd (log (ExitingPosition position reason) st))
     = (Normal result, st1) ->
     distinctKeys (map fst (positions st)) ->
     forall cfg' token',
       Store.address token' = address ->
       isGoodOpportunity cfg'
         (positions (snd (exitPosition cfg w address position reason st)))
         token'
       = isGoodOpportunity cfg' [] token').
Proof.
  split.
  - intros token result st1 H cfg' token' A G.
    apply isGoodOpportunity_true_free in G.
    rewrite enterPosition_run, H in G. simpl in G.
    rewrite A, has_set_same in G. discriminate.
  - intros address position reason result st1 H D cfg' token' A.
    apply isGoodOpportunity_has. rewrite A.
    pose proof (exitPosition_run cfg w address position reason st) as R.
    rewrite H in R. rewrite R. simpl.
    unfold exitFill in H.
    pose proof (swap_effect w address (VStr "USDC")
                  (floor (mul (toNumber (p_amount position)) (pow10 6)))
                  (dryRun cfg)
                  (snd (log (ExitingPosition position reason) st))) as E.
    rewrite H in E. simpl in E. destruct E as (P & _).
    rewrite P. unfold has. now rewrite get_delete_same.
Qed.

Lemma open_blocks_and_close_releases_witness :
  isGoodOpportunity Runs.defaults
    (positions (snd (enterPosition Runs.paper (Runs.silent 0) Runs.foo
                       Runs.emptyState))) Runs.foo
  <> Normal true.
Proof.
  exact (proj1 (open_blocks_and_close_releases Runs.paper (Runs.silent 0)
                  Runs.emptyState)
           Runs.foo _ _ eq_refl Runs.defaults Runs.foo eq_refl).
Defined.

End Lifecycle.

(* ================================================================== *)
(** * What the loop keeps *)

Section Preserved.
Import Js Store Monitor Props Upkeep Loop.

(** A relation between the state before and the state after that every
    step of a pass respects. *)
Variable R : State -> State -> Prop.
Hypothesis R_trans : forall a b c, R a b -> R b c -> R a c.
Hypothesis R_framed : forall st st', framed st st' -> R st st'.
Hypothesis R_enter :
  forall cfg w token st, R st (snd (enterPosition cfg w token st)).
Hypothesis R_exit :
  forall cfg w address position reason st,
    R st (snd (exitPosition cfg w address position reason st)).

Lemma R_refl st : R st st.
Proof. apply R_framed. unfold framed. auto. Qed.

Lemma R_log e st : R st (snd (log e st)).
Proof. apply R_framed. unfold framed. auto. Qed.

Lemma checkPosition_keeps cfg w address position st :
  R st (snd (checkPosition cfg w address position st)).
Proof.
  rewrite checkPosition_decides.
  unfold getTokenData, bind, interact, ret. cbn beta iota.
  destruct (getTokenPairs w (clock st) address) as [pairs |];
    [| apply R_framed; unfold framed; auto].
  destruct (find isBase pairs) as [found |];
    [| apply R_framed; unfold framed; auto].
  cbv zeta.
  destruct (exitDecision _ _ position) as [[[] reason] | msg];
    try solve [apply R_framed; unfold framed; auto].
  cbn [fst snd].
  eapply R_trans; [| apply R_exit].
  apply R_framed; unfold framed; auto.
Qed.

Lemma checkEach_keeps cfg w entries :
  forall st,
    fst (checkEach cfg w entries st) = Normal tt /\
    R st (snd (checkEach cfg w entries st)).
Proof.
  induction entries as [| [address position] rest IH]; intro st.
  - split; [reflexivity | apply R_refl].
  - cbn [checkEach]. unfold bind, tryCatch. cbn beta iota.
    pose proof (checkPosition_keeps cfg w address position st) as K.
    destruct (checkPosition cfg w address position st) as [[u | msg] st1];
      simpl in K |- *.
    + destruct (IH st1) as [N K1]. split; [exact N |].
      exact (R_trans _ _ _ K K1).
    + destruct (IH (snd (log (ErrorChecking position msg) st1))) as [N K1].
      split; [exact N |].
      eapply R_trans; [exact K |]. eapply R_trans; [apply R_log | exact K1].
Qed.

Lemma checkPositions_keeps cfg w st :
  fst (checkPositions cfg w st) = Normal tt /\
  R st (snd (checkPositions cfg w st)).
Proof.
  unfold checkPositions, bind, getPositions. cbn beta iota.
  destruct (positions st) as [| e r] eqn:E; cbn beta iota.
  - split; [reflexivity | apply R_refl].
  - rewrite <- E. unfold log. cbn beta iota.
    match goal with
    | |- context [checkEach cfg w ?l ?s] =>
        destruct (checkEach_keeps cfg w l s) as [N K]
    end.
    split; [exact N |].
    eapply R_trans; [| exact K]. apply R_framed. unfold framed. auto.
Qed.

Lemma openPositions_keeps cfg w tokens :
  forall st, R st (snd (openPositions cfg w tokens st)).
Proof.
  induction tokens as [| token rest IH]; intro st.
  - apply R_refl.
  - cbn [openPositions]. unfold bind, getPositions. cbn beta iota.
    destruct (maxPositions cfg <=? Z.of_nat (size (positions st)))%Z.
    + apply R_log.
    + pose proof (R_enter cfg w token st) as K.
      destruct (enterPosition_effect cfg w token st) as (N & _).
      destruct (enterPosition cfg w token st) as [c st1].
      simpl in N, K. subst c. eapply R_trans; [exact K | apply IH].
Qed.

Lemma scanMarkets_keeps cfg w st :
  fst (scanMarkets cfg w st) = Normal tt /\
  R st (snd (scanMarkets cfg w st)).
Proof.
  rewrite scanMarkets_run.
  destruct (scan_prefix_quiet cfg w st (List.length (scanFeed cfg w st)))
    as (P & F & T & _).
  set (st3 := snd (log (FoundTokens _) _)) in *.
  assert (K3 : R st st3) by (apply R_framed; unfold framed; auto).
  destruct (filterC _ _) as [[| t opportunities] | msg].
  - split; [reflexivity |]. eapply R_trans; [exact K3 | apply R_log].
  - destruct (forallb _ _).
    + match goal with
      | |- context [openPositions cfg w ?l ?s] =>
          destruct (openPositions_capacity cfg w l s) as (N & _);
          pose proof (openPositions_keeps cfg w l s) as K
      end.
      split; [exact N |].
      eapply R_trans; [exact K3 |]. eapply R_trans; [apply R_log | exact K].
    + split; [reflexivity |]. eapply R_trans; [exact K3 | apply R_log].
  - split; [reflexivity |]. eapply R_trans; [exact K3 | apply R_log].
Qed.

Lemma pass_keeps cfg w st :
  fst (pass cfg w st) = Normal tt /\ R st (snd (pass cfg w st)).
Proof.
  unfold pass, bind.
  destruct (scanMarkets_keeps cfg w st) as [N K].
  destruct (scanMarkets cfg w st) as [c st1]. simpl in N, K. subst c.
  destruct (checkPositions_keeps cfg w st1) as [N1 K1].
  split; [exact N1 | exact (R_trans _ _ _ K K1)].
Qed.

Lemma scanLoop_keeps cfg w rounds :
  forall st,
    snd (scanLoop cfg w rounds st) = repeat (scanInterval cfg) rounds /\
    R st (fst (scanLoop cfg w rounds st)).
Proof.
  induction rounds as [| n IH]; intro st.
  - split; [reflexivity | apply R_refl].
  - cbn [scanLoop].
    destruct (pass_keeps cfg w st) as [N K].
    destruct (pass cfg w st) as [c st1]. simpl in N, K. subst c.
    destruct (IH st1) as [S1 K1].
    destruct (scanLoop cfg w n st1) as [st2 sleeps]. simpl in S1, K1 |- *.
    split; [now rewrite S1 | exact (R_trans _ _ _ K K1)].
Qed.

End Preserved.

(* ================================================================== *)
(** * The trade log, the snapshot and the keys through the loop *)

Section Upkeeping.
Import Js Store Monitor Props Upkeep Loop.

Lemma appended_trans a b c : appended a b -> appended b c -> appended a c.
Proof.
  intros (x & Ex & Kx) (y & Ey & Ky). exists (x ++ y). split.
  - now rewrite Ey, Ex, app_assoc.
  - now rewrite forallb_app, Kx, Ky.
Qed.

Lemma appended_framed st st' : framed st st' -> appended st st'.
Proof.
  intros (_ & _ & T). exists []. split; [now rewrite app_nil_r | reflexivity].
Qed.

Lemma appended_enter cfg w token st :
  appended st (snd (enterPosition cfg w token st)).
Proof.
  unfold appended. rewrite enterPosition_log.
  eexists. split; [reflexivity |].
  destruct (fst (entryFill cfg w token _)); [destruct (dryRun cfg) |];
    reflexivity.
Qed.

Lemma appended_exit cfg w address position reason st :
  appended st (snd (exitPosition cfg w address position reason st)).
Proof.
  unfold appended. rewrite exitPosition_run. unfold exitFill.
  pose proof (swap_effect w address (VStr "USDC")
                (floor (mul (toNumber (p_amount position)) (pow10 6)))
                (dryRun cfg)
                (snd (log (ExitingPosition position reason) st))) as E.
  destruct (Swap.swap w address _ _ _ _) as [[result | msg] st1];
    simpl in E |- *; destruct E as (_ & _ & T & _); rewrite T.
  - exists [SwapLine result;
            TradeLine (dateNow w (S (clock st1)))
              (exitTrade position reason result (dateNow w (clock st1)))].
    split; [now rewrite <- app_assoc | reflexivity].
  - exists []. split; reflexivity.
Qed.

Lemma mirrored_trans a b c : mirrored a b -> mirrored b c -> mirrored a c.
Proof.
  unfold mirrored, synced.
  intros [[P1 F1] | S1] [[P2 F2] | S2]; auto.
  - left. split; congruence.
  - right. congruence.
Qed.

Lemma mirrored_framed st st' : framed st st' -> mirrored st st'.
Proof. intros (P & F & _). left. auto. Qed.

Lemma mirrored_enter cfg w token st :
  mirrored st (snd (enterPosition cfg w token st)).
Proof.
  rewrite enterPosition_run.
  pose proof (entryFill_effect cfg w token
                (snd (log (EnteringPosition token) st))) as E.
  destruct (entryFill cfg w token _) as [[result | msg] st1];
    simpl in E |- *; destruct E as (P & F & _).
  - right. reflexivity.
  - left. auto.
Qed.

Lemma mirrored_exit cfg w address position reason st :
  mirrored st (snd (exitPosition cfg w address position reason st)).
Proof.
  rewrite exitPosition_run. unfold exitFill.
  pose proof (swap_effect w address (VStr "USDC")
                (floor (mul (toNumber (p_amount position)) (pow10 6)))
                (dryRun cfg)
                (snd (log (ExitingPosition position reason) st))) as E.
  destruct (Swap.swap w address _ _ _ _) as [[result | msg] st1];
    simpl in E |- *; destruct E as (P & F & _).
  - right. reflexivity.
  - left. auto.
Qed.

Lemma keepsDistinct_trans a b c :
  keepsDistinct a b -> keepsDistinct b c -> keepsDistinct a c.
Proof. unfold keepsDistinct. auto. Qed.

Lemma keepsDistinct_framed st st' : framed st st' -> keepsDistinct st st'.
Proof. intros (P & _). unfold keepsDistinct. now rewrite P. Qed.

Lemma keepsDistinct_enter cfg w token st :
  keepsDistinct st (snd (enterPosition cfg w token st)).
Proof.
  unfold keepsDistinct. intro D. rewrite enterPosition_run.
  destruct (entryFill_effect cfg w token
              (snd (log (EnteringPosition token) st))) as (P & _).
  destruct (entryFill cfg w token _) as [[result | msg] st1];
    simpl in P |- *; rewrite P; [now apply set_distinct | exact D].
Qed.

Lemma keepsDistinct_exit cfg w address position reason st :
  keepsDistinct st (snd (exitPosition cfg w address position reason st)).
Proof.
  unfold keepsDistinct. intro D.
  destruct (exitPosition_effect cfg w address position reason st)
    as (_ & _ & [E | E]); rewrite E; [exact D | now apply delete_distinct].
Qed.

Lemma fold_set_distinct (data : list Position) :
  forall m : Map Position,
    distinctKeys (map fst m) ->
    distinctKeys
      (map fst (fold_left (fun m pos => set (p_address pos) pos m) data m)).
Proof.
  induction data as [| pos r IH]; intros m D; simpl; [exact D |].
  apply IH. now apply set_distinct.
Qed.

(** The trade log only grows: through any number of passes of the loop
    it keeps every line it had, in order, and gains only lines of type
    [SWAP] and [EXIT]. *)
Theorem trade_log_only_grows cfg w rounds st :
  appended st (fst (scanLoop cfg w rounds st)).
Proof.
  exact (proj2 (scanLoop_keeps appended appended_trans appended_framed
                  appended_enter appended_exit cfg w rounds st)).
Qed.

(** The snapshot follows the store: after any number of passes either
    the store and the file are as they were, or the file holds the
    snapshot of the store as it now is. *)
Theorem snapshot_follows_store cfg w rounds st :
  mirrored st (fst (scanLoop cfg w rounds st)).
Proof.
  exact (proj2 (scanLoop_keeps mirrored mirrored_trans mirrored_framed
                  mirrored_enter mirrored_exit cfg w rounds st)).
Qed.

(** One entry per address: a store with distinct keys keeps them
    distinct through any number of passes of the loop, and through the
    loading of a snapshot, whatever the file holds. *)
Theorem addresses_stay_distinct cfg w rounds st :
  distinctKeys (map fst (positions st)) ->
  distinctKeys (map fst (positions (fst (scanLoop cfg w rounds st)))) /\
  distinctKeys (map fst (positions (snd (loadPositions st)))).
Proof.
  intro D. split.
  - exact (proj2 (scanLoop_keeps keepsDistinct keepsDistinct_trans
                    keepsDistinct_framed keepsDistinct_enter
                    keepsDistinct_exit cfg w rounds st) D).
  - unfold loadPositions.
    destruct (positionsFile st) as [| | data | data rest]; try exact D.
    + unfold bind, getPositions, setPositions, log. cbn beta iota. simpl.
      now apply fold_set_distinct.
    + unfold tryCatch, bind, getPositions, setPositions, throw, log.
      cbn beta iota. simpl. now apply fold_set_distinct.
Qed.

Lemma addresses_stay_distinct_witness :
  distinctKeys
    (map fst (positions (fst (scanLoop Runs.paper
                                (Cases.trending 0 (VStr "1.00")) 2
                                Runs.crowded)))) /\
  distinctKeys (map fst (positions (snd (loadPositions Cases.twoRecords)))).
Proof.
  split.
  - apply (addresses_stay_distinct Runs.paper
             (Cases.trending 0 (VStr "1.00")) 2 Runs.crowded).
    vm_compute. auto.
  - apply (addresses_stay_distinct Runs.paper (Runs.silent 0) 0
             Cases.twoRecords).
    vm_compute. auto.
Defined.

(** The loop never backs off: a pass completes in every world and every
    state, so each of the [rounds] sleeps is the scan interval and none is
    the five seconds of the error branch; yet the check of a single
    position can throw, which [checkPositions] contains. *)
Theorem loop_never_backs_off cfg w rounds st :
  snd (scanLoop cfg w rounds st) = repeat (scanInterval cfg) rounds /\
  fst (scanMarkets cfg w st) = Normal tt /\
  fst (checkPositions cfg w st) = Normal tt /\
  fst (checkPosition Runs.paper (Runs.market 0 (VStr "n/a"))
         Runs.heldAddress Cases.stopless Cases.holdingStopless)
  = Throw "TypeError" /\
  fst (checkPositions Runs.paper (Runs.market 0 (VStr "n/a"))
         Cases.holdingStopless) = Normal tt.
Proof.
  assert (T : forall a b c : State, True -> True -> True) by auto.
  split; [| split; [| split; [| split]]].
  - exact (proj1 (scanLoop_keeps (fun _ _ => True) T (fun _ _ _ => I)
                    (fun _ _ _ _ => I) (fun _ _ _ _ _ _ => I)
                    cfg w rounds st)).
  - exact (proj1 (scanMarkets_keeps (fun _ _ => True) T (fun _ _ _ => I)
                    (fun _ _ _ _ => I) cfg w st)).
  - exact (proj1 (checkPositions_keeps (fun _ _ => True) T (fun _ _ _ => I)
                    (fun _ _ _ _ _ _ => I) cfg w st)).
  - vm_compute. reflexivity.
  - vm_compute. reflexivity.
Qed.

End Upkeeping.

(* ================================================================== *)
(** * Edges of the evaluation, the scan and the loading *)

Section Edges.
Import Js Store Monitor Props Upkeep.

(** A position whose stop is not a number is not closed while the price
    is at or under the stop read as a number: the check throws on
    formatting the stop, before the time and the profit rules are
    looked at; nothing is attempted and the store, its file and the
    trade log are as they were. *)
Theorem non_number_stop_never_closes cfg w address position st pairs found :
  isNumber (p_stopLoss position) = false ->
  getTokenPairs w (clock st) address = Some pairs ->
  find isBase pairs = Some found ->
  stopLossRule (td_price (tokenDataOf found)) position = true ->
  let r := checkPosition cfg w address position st in
  fst r = Throw "TypeError" /\
  framed st (snd r) /\
  closeAttempts (console (snd r)) = closeAttempts (console st).
Proof.
  intros N Hp Hf R. cbv zeta. rewrite checkPosition_decides.
  unfold getTokenData, bind, interact, ret. cbn beta iota.
  rewrite Hp, Hf. cbv zeta.
  unfold exitDecision, stopLossCheck. unfold stopLossRule in R. rewrite R.
  destruct (p_stopLoss position); try discriminate;
    (split; [reflexivity |]; split; [unfold framed; auto |]);
    simpl; rewrite closeAttempts_app; simpl; now rewrite app_nil_r.
Qed.

Lemma non_number_stop_never_closes_witness :
  fst (checkPosition Runs.paper (Runs.market 0 (VStr "n/a"))
         Runs.heldAddress Cases.stopless Cases.holdingStopless)
  = Throw "TypeError".
Proof.
  exact (proj1 (non_number_stop_never_closes Runs.paper
                  (Runs.market 0 (VStr "n/a")) Runs.heldAddress
                  Cases.stopless Cases.holdingStopless
                  [Runs.basePair (VStr "n/a")] (Runs.basePair (VStr "n/a"))
                  eq_refl eq_refl eq_refl eq_refl)).
Defined.

(** A scan in which no token qualifies, or in which the filter throws on
    a token, opens nothing and leaves the store, its file and the trade
    log as they were: one token with a symbol that is not a string, once
    it passes the thresholds, ends the scan before the tokens that
    qualified ahead of it are opened. *)
Theorem scan_without_list_is_quiet cfg w st :
  filterC (isGoodOpportunity cfg (positions st)) (scanFeed cfg w st)
  = Normal [] \/
  (exists msg,
     filterC (isGoodOpportunity cfg (positions st)) (scanFeed cfg w st)
     = Throw msg) ->
  quiet st (snd (scanMarkets cfg w st)).
Proof.
  intro H. rewrite scanMarkets_run.
  pose proof (scan_prefix_quiet cfg w st (List.length (scanFeed cfg w st)))
    as Q.
  set (st3 := snd (log (FoundTokens _) _)) in *.
  assert (L : forall e, attemptOf e = [] -> quiet st (snd (log e st3))).
  { intros e E. destruct Q as (P & F & T & A). unfold quiet.
    rewrite log_attempts, A, E, app_nil_r. unfold log; simpl. auto. }
  destruct Q as (P & _). rewrite P.
  destruct H as [H | (msg & H)]; rewrite H; now apply L.
Qed.

Lemma scan_without_list_is_quiet_witness :
  qualifies Runs.defaults [] Runs.listed = true /\
  quiet Runs.emptyState
    (snd (scanMarkets Runs.defaults Cases.oddSymbol Runs.emptyState)).
Proof.
  split; [reflexivity |].
  apply scan_without_list_is_quiet. right.
  exists "TypeError"%string. reflexivity.
Defined.

Lemma mapC_throws {A B} (f : A -> Completion B) (l : list A) a msg :
  In a l -> f a = Throw msg -> exists msg', mapC f l = Throw msg'.
Proof.
  induction l as [| b r IH]; simpl; [contradiction |].
  intros [-> | H] F.
  - rewrite F. eauto.
  - destruct (f b); [| eauto].
    destruct (IH H F) as (m & ->). eauto.
Qed.

(** One base pair without a [baseToken] among the pairs selected empties
    the feed: the call returns no token at all, and does not throw. *)
Theorem headless_pair_empties_feed w cfg st p :
  In p (selectedPairs w cfg st) ->
  isBase p = true ->
  pr_baseToken p = None ->
  fst (getTrendingTokens w cfg st) = Normal [].
Proof.
  intros Hp B N.
  destruct (getTrendingTokens_quiet w cfg st) as (tokens & E & _).
  rewrite E. f_equal.
  assert (F : feed w cfg st = tokens) by (unfold feed; now rewrite E).
  rewrite <- F, feed_run.
  destruct (mapC_throws toToken (filter isBase (selectedPairs w cfg st)) p
              "TypeError") as (m & ->);
    [apply filter_In; auto | unfold toToken; now rewrite N | reflexivity].
Qed.

Lemma headless_pair_empties_feed_witness :
  fst (getTrendingTokens Cases.spoiled Runs.defaults Runs.emptyState)
  = Normal [].
Proof.
  apply (headless_pair_empties_feed Cases.spoiled Runs.defaults
           Runs.emptyState Cases.headless).
  - right. left. reflexivity.
  - reflexivity.
  - reflexivity.
Defined.

Lemma dedup_incl (l : list Pair) :
  forall seen p, In p (dedup seen l) -> In p l.
Proof.
  induction l as [| q r IH]; simpl; intros seen p H; [exact H |].
  destruct (existsb (sameValueZero (pr_pairAddress q)) seen).
  - right. eauto.
  - destruct H as [<- | H]; [now left | right; eauto].
Qed.

(** What the fallback fetches is put after the pairs it was given, and
    every pair of it is fetchable. *)
Lemma fetchPopular_appends w cfg tokens :
  forall pairs st,
    exists fetched,
      fst (fetchPopular w cfg tokens pairs st) = Normal (pairs ++ fetched) /\
      forallb (fetchable cfg) fetched = true.
Proof.
  induction tokens as [| tokenAddress rest IH]; intros pairs st.
  - exists []. split; [simpl; now rewrite app_nil_r | reflexivity].
  - cbn [fetchPopular]. unfold bind, interact. cbn beta iota.
    destruct (getTokenPairs w (clock st) (VStr tokenAddress)) as [tp |].
    + match goal with
      | |- context [fetchPopular w cfg rest (pairs ++ ?b) ?s] =>
          destruct (IH (pairs ++ b) s) as (fetched & E & F);
          exists (b ++ fetched)
      end.
      split; [now rewrite E, app_assoc |].
      rewrite forallb_app, F, andb_true_r.
      apply forallb_forall. intros x Hx. apply filter_In in Hx as [_ Hx].
      exact Hx.
    + match goal with
      | |- context [fetchPopular w cfg rest pairs ?s] =>
          destruct (IH pairs s) as (fetched & E & F)
      end.
      exists fetched. auto.
Qed.

(** On the fallback path every token of the feed is built from a base
    pair that was fetched with a 24h volume above the minimum. *)
Theorem fallback_feed_is_volume_filtered w cfg st :
  fallbackTaken w st = true ->
  forall t, In t (feed w cfg st) ->
    exists p, toToken p = Normal t /\ fetchable cfg p = true.
Proof.
  intros F t Ht. rewrite feed_run in Ht.
  unfold selectedPairs in Ht. rewrite F in Ht.
  destruct (mapC toToken (filter isBase (dedup [] (mergedPairs w cfg st))))
    as [tokens |] eqn:M; [| contradiction].
  apply filter_In in Ht as [Ht _].
  destruct (mapC_In _ _ _ _ M Ht) as (p & Hp & E).
  apply filter_In in Hp as [Hp B]. apply dedup_incl in Hp.
  exists p. split; [exact E |].
  unfold mergedPairs in Hp.
  destruct (fetchPopular_appends w cfg (firstn 2 popularTokens)
              (trendingPairs w st) (snd (interact st)))
    as (fetched & E' & Ff).
  rewrite E' in Hp. apply in_app_or in Hp as [Hp | Hp].
  - (* the trending answer has no base pair *)
    exfalso. unfold fallbackTaken in F.
    assert (X : existsb isBase (trendingPairs w st) = true)
      by (apply existsb_exists; eauto).
    rewrite X in F. simpl in F. rewrite orb_false_r in F.
    apply Nat.eqb_eq in F.
    destruct (trendingPairs w st); [contradiction | discriminate].
  - rewrite forallb_forall in Ff. now apply Ff.
Qed.

Lemma fallback_feed_is_volume_filtered_witness :
  exists p, toToken p = Normal Runs.listed /\
            fetchable Runs.defaults p = true.
Proof.
  apply (fallback_feed_is_volume_filtered Runs.fallback Runs.defaults
           Runs.emptyState eq_refl Runs.listed).
  left. reflexivity.
Defined.








Lemma has_set_keeps (k k' : value) (p : Position) (m : Map Position) :
  has k m = true -> has k (set k' p m) = true.
Proof.
  unfold has. induction m as [| [k1 p1] r IH]; simpl; [discriminate |].
  destruct (sameValueZero k1 k') eqn:E; simpl.
  - destruct (sameValueZero k1 k); [reflexivity | auto].
  - destruct (sameValueZero k1 k); [reflexivity | exact IH].
Qed.

Lemma fold_set_has (data : list Position) :
  forall (m : Map Position) k,
    has k m = true \/ (exists pos, In pos data /\ p_address pos = k) ->
    has k (fold_left (fun m pos => set (p_address pos) pos m) data m) = true.
Proof.
  induction data as [| pos r IH]; intros m k H; simpl.
  - destruct H as [H | (pos & [] & _)]. exact H.
  - apply IH. destruct H as [H | (q & [<- | Hq] & A)].
    + left. now apply has_set_keeps.
    + left. rewrite <- A. apply has_set_same.
    + right. eauto.
Qed.

Lemma has_set_inv (k k' : value) (p : Position) (m : Map Position) :
  has k (set k' p m) = true ->
  has k m = true \/ sameValueZero k' k = true.
Proof.
  unfold has. induction m as [| [k1 p1] r IH]; simpl.
  - destruct (sameValueZero k' k); [now right | discriminate].
  - destruct (sameValueZero k1 k') eqn:E; simpl;
      destruct (sameValueZero k1 k); auto.
Qed.

Lemma fold_set_has_inv (data : list Position) :
  forall (m : Map Position) k,
    has k (fold_left (fun m pos => set (p_address pos) pos m) data m) = true ->
    has k m = true \/
    exists pos, In pos data /\ sameValueZero (p_address pos) k = true.
Proof.
  induction data as [| pos r IH]; intros m k H; simpl in H; [now left |].
  destruct (IH _ _ H) as [H1 | (q & Hq & S)].
  - destruct (has_set_inv _ _ _ _ H1) as [H2 | H2]; [now left |].
    right. exists pos. simpl. auto.
  - right. exists q. simpl. auto.
Qed.

(** Loading only adds, and never throws: it keeps every address the store
    holds (a record of the file for that address replaces the position)
    and writes neither the file nor the trade log.  From an array of
    objects every record is loaded.  From an array with a [null] among its
    members the records before the first [null] are loaded and nothing
    else is: an address in the store afterwards was there before or is
    that of a record before the [null].  Without a file, or with one that
    is no array, the store is left as it is. *)
Theorem loadPositions_only_adds st :
  let st' := snd (loadPositions st) in
  fst (loadPositions st) = Normal tt /\
  (forall k, has k (positions st) = true -> has k (positions st') = true) /\
  (forall data,
     positionsFile st = Records data ->
     forall pos, In pos data -> has (p_address pos) (positions st') = true) /\
  (forall before rest,
     positionsFile st = RecordsWithNull before rest ->
     (forall pos, In pos before ->
                  has (p_address pos) (positions st') = true) /\
     (forall k, has k (positions st') = true ->
                has k (positions st) = true \/
                exists pos, In pos before /\
                            sameValueZero (p_address pos) k = true)) /\
  positionsFile st' = positionsFile st /\
  tradesLog st' = tradesLog st /\
  (positionsFile st = NoFile \/ positionsFile st = Unreadable ->
   positions st' = positions st).
Proof.
  cbv zeta. unfold loadPositions.
  destruct (positionsFile st) as [| | data | before rest] eqn:F.
  - simpl. repeat split; auto; discriminate.
  - simpl. repeat split; auto; discriminate.
  - simpl. split; [reflexivity |].
    split; [| split; [| split; [| split; [| split]]]].
    + intros k H. apply fold_set_has. now left.
    + intros d [= <-] pos Hp. apply fold_set_has. right. eauto.
    + discriminate.
    + exact F.
    + reflexivity.
    + intros [H | H]; discriminate.
  - unfold tryCatch, bind, getPositions, setPositions, throw, log.
    cbn beta iota. simpl.
    split; [reflexivity |].
    split; [| split; [| split; [| split; [| split]]]].
    + intros k H. apply fold_set_has. now left.
    + discriminate.
    + intros b r [= <- <-]. split.
      * intros pos Hp. apply fold_set_has. right. eauto.
      * intros k H. now apply fold_set_has_inv.
    + exact F.
    + reflexivity.
    + intros [H | H]; discriminate.
Qed.

Lemma loadPositions_only_adds_witness :
  has Cases.baseAddress (positions (snd (loadPositions Cases.twoRecords)))
  = true /\
  has Runs.heldAddress (positions (snd (loadPositions Cases.nullInTheMiddle)))
  = true.
Proof.
  split.
  - apply (proj1 (proj2 (proj2 (loadPositions_only_adds Cases.twoRecords)))
             [Cases.stopless; Cases.heldOnBase] eq_refl Cases.heldOnBase).
    right. left. reflexivity.
  - apply (proj1 (proj1 (proj2 (proj2 (proj2
             (loadPositions_only_adds Cases.nullInTheMiddle))))
             [Cases.stopless] [Some Cases.heldOnBase] eq_refl)
             Cases.stopless).
    left. reflexivity.
Defined.

(** The record after the [null] is not loaded, and the error is logged. *)
Example null_member_stops_loading :
  let r := loadPositions Cases.nullInTheMiddle in
  fst r = Normal tt /\
  map fst (positions (snd r)) = [Runs.heldAddress] /\
  has Cases.baseAddress (positions (snd r)) = false /\
  console (snd r) = [ErrorLoading].
Proof. vm_compute. repeat split. Qed.

End Edges.

(* ================================================================== *)
(** * The limit through the loop, and what a scan and a check do *)

Section Reach.
Import Js Store Monitor Props Upkeep Loop.

Lemma size_delete_le {V} (k : value) (m : Map V) :
  (size (delete k m) <= size m)%nat.
Proof.
  unfold size. induction m as [| [k1 v1] r IH]; simpl; [lia |].
  destruct (sameValueZero k1 k); simpl; lia.
Qed.

Lemma shrinks_trans a b c : shrinks a b -> shrinks b c -> shrinks a c.
Proof. unfold shrinks. lia. Qed.

Lemma shrinks_framed st st' : framed st st' -> shrinks st st'.
Proof. intros (P & _). unfold shrinks. rewrite P. lia. Qed.

Lemma shrinks_exit cfg w address position reason st :
  shrinks st (snd (exitPosition cfg w address position reason st)).
Proof.
  unfold shrinks.
  destruct (exitPosition_effect cfg w address position reason st)
    as (_ & _ & [E | E]); rewrite E; [lia | apply size_delete_le].
Qed.

Lemma scanMarkets_bounded cfg w st :
  bounded cfg st (snd (scanMarkets cfg w st)).
Proof.
  unfold bounded. rewrite scanMarkets_run.
  destruct (scan_prefix_quiet cfg w st (List.length (scanFeed cfg w st)))
    as (P3 & _).
  set (st3 := snd (log (FoundTokens _) _)) in *.
  destruct (filterC _ _) as [[| t opportunities] | msg];
    try (rewrite log_positions, P3; left; reflexivity).
  destruct (forallb _ _); [| rewrite log_positions, P3; left; reflexivity].
  match goal with
  | |- context [openPositions cfg w ?l ?s] =>
      destruct (openPositions_capacity cfg w l s) as (_ & C & _)
  end.
  rewrite log_positions, P3 in C. exact C.
Qed.

(** The limit holds through the loop: after any number of passes the
    store is no larger than it was, or within [maxPositions]; so a store
    within the limit stays within it. *)
Theorem capacity_holds_through_loop cfg w rounds :
  forall st,
    bounded cfg st (fst (scanLoop cfg w rounds st)) /\
    ((Z.of_nat (size (positions st)) <= maxPositions cfg)%Z ->
     (Z.of_nat (size (positions (fst (scanLoop cfg w rounds st))))
      <= maxPositions cfg)%Z).
Proof.
  assert (B : forall st, bounded cfg st (fst (scanLoop cfg w rounds st))).
  { induction rounds as [| n IH]; intro st.
    - left. simpl. lia.
    - cbn [scanLoop]. unfold pass, bind.
      pose proof (scanMarkets_bounded cfg w st) as S.
      destruct (scanMarkets cfg w st) as [[u | msg] st1]; simpl in S.
      + destruct (checkPositions_keeps shrinks shrinks_trans shrinks_framed
                    shrinks_exit cfg w st1) as [N K].
        destruct (checkPositions cfg w st1) as [c st2]. simpl in N, K.
        subst c. specialize (IH st2).
        destruct (scanLoop cfg w n st2) as [st3 sleeps]. simpl in IH |- *.
        unfold bounded, shrinks in *. lia.
      + specialize (IH st1).
        destruct (scanLoop cfg w n st1) as [st3 sleeps]. simpl in IH |- *.
        unfold bounded in *. lia. }
  intro st. split; [apply B |].
  intro H. destruct (B st) as [L | L]; [lia | exact L].
Qed.

Lemma capacity_holds_through_loop_witness :
  (Z.of_nat (size (positions (fst (scanLoop Runs.paper
                                     (Cases.trending 0 (VStr "1.00")) 3
                                     Runs.emptyState))))
   <= maxPositions Runs.paper)%Z.
Proof.
  apply (proj2 (capacity_holds_through_loop Runs.paper
                  (Cases.trending 0 (VStr "1.00")) 3 Runs.emptyState)).
  vm_compute. discriminate.
Defined.

(** The loop over the top opportunities stops for one reason only: it
    begins the opens of a first part of its list, and that part is the
    whole list unless the store has reached the limit. *)
Lemma openPositions_until_full cfg w tokens :
  forall st,
    exists k,
      attempts (console (snd (openPositions cfg w tokens st))) =
      attempts (console st) ++ firstn k tokens /\
      (firstn k tokens = tokens \/
       (maxPositions cfg <=
        Z.of_nat (size (positions (snd (openPositions cfg w tokens st)))))%Z).
Proof.
  induction tokens as [| token rest IH]; intro st.
  - exists 0%nat. simpl. rewrite app_nil_r. auto.
  - cbn [openPositions]. unfold bind, getPositions. cbn beta iota.
    destruct (maxPositions cfg <=? Z.of_nat (size (positions st)))%Z eqn:Full.
    + exists 0%nat. rewrite log_attempts, log_positions. simpl.
      rewrite !app_nil_r. apply Z.leb_le in Full. auto.
    + destruct (enterPosition_effect cfg w token st) as (E1 & E2 & _).
      destruct (enterPosition cfg w token st) as [c st1].
      simpl in E1, E2. subst c.
      destruct (IH st1) as (k & A & H). exists (S k). split.
      * rewrite A, E2. simpl. now rewrite <- app_assoc.
      * simpl. destruct H as [H | H]; [left; now rewrite H | now right].
Qed.

(** A scan whose filter yields a list begins the opens of its first
    three tokens, in order, all of them unless the store reaches
    [maxPositions] first. *)
Theorem scan_opens_until_full cfg w st opportunities :
  filterC (isGoodOpportunity cfg (positions st)) (scanFeed cfg w st)
  = Normal opportunities ->
  forallb (fun t => isNumber (priceChange24h t)) opportunities = true ->
  let st' := snd (scanMarkets cfg w st) in
  exists k,
    attempts (console st') =
    attempts (console st) ++ firstn k (firstn 3 opportunities) /\
    (firstn k (firstn 3 opportunities) = firstn 3 opportunities \/
     (maxPositions cfg <= Z.of_nat (size (positions st')))%Z).
Proof.
  intros F N. cbv zeta. rewrite scanMarkets_run.
  destruct (scan_prefix_quiet cfg w st (List.length (scanFeed cfg w st)))
    as (P3 & _ & _ & A3).
  set (st3 := snd (log (FoundTokens _) _)) in *.
  rewrite P3, F.
  destruct opportunities as [| t r].
  - exists 0%nat. rewrite log_attempts, A3. simpl. auto.
  - rewrite N.
    match goal with
    | |- context [openPositions cfg w ?l ?s] =>
        destruct (openPositions_until_full cfg w l s) as (k & A & H)
    end.
    exists k. rewrite A, log_attempts, A3. simpl attemptOf.
    rewrite app_nil_r. auto.
Qed.

Lemma scan_opens_until_full_witness :
  exists k,
    attempts (console (snd (scanMarkets Runs.paper
                              (Cases.trending 0 (VStr "1.00"))
                              Runs.emptyState)))
    = attempts (console Runs.emptyState) ++
      firstn k (firstn 3 [Runs.listed]) /\
    (firstn k (firstn 3 [Runs.listed]) = firstn 3 [Runs.listed] \/
     (maxPositions Runs.paper <=
      Z.of_nat (size (positions (snd (scanMarkets Runs.paper
                                        (Cases.trending 0 (VStr "1.00"))
                                        Runs.emptyState)))))%Z).
Proof.
  exact (scan_opens_until_full Runs.paper (Cases.trending 0 (VStr "1.00"))
           Runs.emptyState [Runs.listed] eq_refl eq_refl).
Defined.

(** The check of a position whose price is known and whose stop is a
    number completes; it begins a close exactly when one of the three
    rules matches, for a reason that names a rule; and when none
    matches it leaves the store, its file and the trade log as they
    were. *)
Theorem close_begun_iff_rule_matches cfg w address position st pairs found
  sl :
  getTokenPairs w (clock st) address = Some pairs ->
  find isBase pairs = Some found ->
  p_stopLoss position = VNum sl ->
  let currentPrice := td_price (tokenDataOf found) in
  let t := dateNow w (S (clock st)) in
  let r := checkPosition cfg w address position st in
  fst r = Normal tt /\
  if stopLossRule currentPrice position || timeRule currentPrice t position
     || profitRule currentPrice position
  then exists reason,
         closeAttempts (console (snd r)) =
         closeAttempts (console st) ++ [(position, reason)] /\
         ruleOf reason <> None
  else framed st (snd r) /\
       closeAttempts (console (snd r)) = closeAttempts (console st).
Proof.
  intros Hp Hf Hs. cbv zeta. rewrite checkPosition_decides.
  unfold getTokenData, bind, interact, ret. cbn beta iota.
  rewrite Hp, Hf. cbv zeta.
  unfold log. cbn [fst snd positions positionsFile tradesLog console clock].
  rewrite (exitDecision_cases _ _ position sl Hs).
  set (currentPrice := td_price (tokenDataOf found)).
  set (t := dateNow w (S (clock st))).
  assert (X : forall reason s0,
            closeAttempts (console s0) = closeAttempts (console st) ->
            fst (exitPosition cfg w address position reason s0) = Normal tt /\
            exists reason0,
              closeAttempts
                (console (snd (exitPosition cfg w address position reason s0)))
              = closeAttempts (console st) ++ [(position, reason0)] /\
              (ruleOf reason <> None -> ruleOf reason0 <> None)).
  { intros reason s0 C0.
    destruct (exitPosition_effect cfg w address position reason s0)
      as (N & C & _).
    split; [exact N |]. exists reason. rewrite C, C0. auto. }
  assert (C0 : forall c,
            closeAttempts
              (console st ++ [PositionStatus position currentPrice c])
            = closeAttempts (console st)).
  { intro c. rewrite closeAttempts_app. simpl. now rewrite app_nil_r. }
  destruct (profitRule currentPrice position);
    [rewrite orb_true_r|];
    [| destruct (timeRule currentPrice t position);
       [rewrite orb_true_r; simpl orb|];
       [| destruct (stopLossRule currentPrice position); simpl orb]];
    cbn [fst snd].
  - match goal with
    | |- context [exitPosition cfg w address position ?re ?s0] =>
        destruct (X re s0 (C0 _)) as (N & reason0 & C & K)
    end.
    split; [exact N |]. exists reason0. split; [exact C |].
    apply K. discriminate.
  - match goal with
    | |- context [exitPosition cfg w address position ?re ?s0] =>
        destruct (X re s0 (C0 _)) as (N & reason0 & C & K)
    end.
    split; [exact N |]. exists reason0. split; [exact C |].
    apply K. discriminate.
  - match goal with
    | |- context [exitPosition cfg w address position ?re ?s0] =>
        destruct (X re s0 (C0 _)) as (N & reason0 & C & K)
    end.
    split; [exact N |]. exists reason0. split; [exact C |].
    apply K. discriminate.
  - split; [reflexivity |]. split; [unfold framed; auto |]. apply C0.
Qed.

Lemma close_begun_iff_rule_matches_witness :
  framed Runs.holding
    (snd (checkPosition Runs.paper (Runs.market 0 (VStr "1.10"))
            Runs.heldAddress Runs.held Runs.holding)).
Proof.
  exact (proj1 (proj2 (close_begun_iff_rule_matches Runs.paper
                         (Runs.market 0 (VStr "1.10")) Runs.heldAddress
                         Runs.held Runs.holding
                         [Runs.basePair (VStr "1.10")]
                         (Runs.basePair (VStr "1.10")) (Fin (9 # 10))
                         eq_refl eq_refl eq_refl))).
Defined.

(** In a dry run the loop over the top opportunities keeps every address
    of the store and stores a position for every token it begins to
    open. *)
Lemma openPositions_dry cfg w tokens :
  dryRun cfg = true ->
  forall st,
    (forall k, has k (positions st) = true ->
               has k (positions (snd (openPositions cfg w tokens st))) = true)
    /\
    exists opened,
      attempts (console (snd (openPositions cfg w tokens st))) =
      attempts (console st) ++ opened /\
      forall t, In t opened ->
                has (address t)
                  (positions (snd (openPositions cfg w tokens st))) = true.
Proof.
  intro D. induction tokens as [| token rest IH]; intro st.
  - split; [auto |]. exists []. simpl. rewrite app_nil_r.
    split; [reflexivity | contradiction].
  - cbn [openPositions]. unfold bind, getPositions. cbn beta iota.
    destruct (maxPositions cfg <=? Z.of_nat (size (positions st)))%Z.
    + split; [auto |]. exists []. rewrite log_attempts. simpl.
      split; [reflexivity | contradiction].
    + destruct (enterPosition_effect cfg w token st) as (E1 & E2 & _).
      pose proof (enterPosition_run cfg w token st) as R.
      unfold entryFill in R. rewrite D in R.
      unfold bind, now, interact, ret, log in R. simpl in R.
      destruct (enterPosition cfg w token st) as [c st1].
      simpl in E1, E2. subst c. injection R as R.
      assert (P : exists p, positions st1 = set (address token) p
                                              (positions st))
        by (rewrite R; simpl; eauto).
      destruct P as (p & P).
      destruct (IH st1) as (K & opened & A & H). split.
      * intros k Hk. apply K. rewrite P. now apply has_set_keeps.
      * exists (token :: opened). split.
        -- rewrite A, E2. now rewrite <- app_assoc.
        -- intros t [<- | Ht]; [| now apply H].
           apply K. rewrite P. apply has_set_same.
Qed.

(** In a dry run a scan stores what it opens: every token whose open it
    begins has a position at its address when the scan ends, and no
    address the store held is lost. *)
Theorem dry_scan_stores_what_it_opens cfg w st :
  dryRun cfg = true ->
  let st' := snd (scanMarkets cfg w st) in
  (forall k, has k (positions st) = true -> has k (positions st') = true) /\
  exists opened,
    attempts (console st') = attempts (console st) ++ opened /\
    forall t, In t opened -> has (address t) (positions st') = true.
Proof.
  intro D. cbv zeta. rewrite scanMarkets_run.
  destruct (scan_prefix_quiet cfg w st (List.length (scanFeed cfg w st)))
    as (P3 & _ & _ & A3).
  set (st3 := snd (log (FoundTokens _) _)) in *.
  assert (L : forall e, attemptOf e = [] ->
            (forall k, has k (positions st) = true ->
                       has k (positions (snd (log e st3))) = true) /\
            exists opened,
              attempts (console (snd (log e st3))) =
              attempts (console st) ++ opened /\
              forall t, In t opened ->
                        has (address t) (positions (snd (log e st3))) = true).
  { intros e E. rewrite log_positions, P3. split; [auto |].
    exists []. rewrite log_attempts, A3, E.
    split; [reflexivity | contradiction]. }
  destruct (filterC _ _) as [[| t opportunities] | msg];
    try (now apply L).
  destruct (forallb _ _); [| now apply L].
  match goal with
  | |- context [openPositions cfg w ?l ?s] =>
      destruct (openPositions_dry cfg w l D s) as (K & opened & A & H)
  end.
  rewrite log_positions, P3 in K. split; [exact K |].
  exists opened. rewrite A, log_attempts, A3. simpl attemptOf.
  rewrite app_nil_r. auto.
Qed.

Lemma dry_scan_stores_what_it_opens_witness :
  has (VStr "0x2")
    (positions (snd (scanMarkets Runs.paper (Cases.trending 0 (VStr "1.00"))
                       Runs.crowded))) = true.
Proof.
  exact (proj1 (dry_scan_stores_what_it_opens Runs.paper
                  (Cases.trending 0 (VStr "1.00")) Runs.crowded eq_refl)
           (VStr "0x2") eq_refl).
Defined.

End Reach.
